(** * Book Finder: the search controller of [src/App.js]

    A shallow embedding of the React component [App] and of its hook
    [useDebounced]: the component's state, its three effects, its event
    handlers and the asynchronous function [fetchBooks], followed by the
    properties of the query-debounce-fetch-cancel-paginate pipeline.

    Conventions of the embedding.
    - JavaScript strings that reach [encodeURIComponent] (the raw and the
      debounced query) are sequences of UTF-16 code units, [list N]; every
      other string (URLs, messages, ISBNs) is a [string].
    - JavaScript numbers are integers, [Z]: page numbers, counts, cover ids.
    - A response field that is present has the type the search API gives it
      ([docs] an array of records, [numFound] and [cover_i] integers,
      [isbn] an array of strings); its value is otherwise free.
    - Time is discrete, in milliseconds; a timeout runs when it is due.
    - The promise of a request that has not settled rejects as soon as
      [abort()] is called on its signal; the continuation of [fetchBooks]
      runs once the effects of the render have returned. *)

From Stdlib Require Import DecimalString ZifyN.
From stdpp Require Import base numbers list strings option.

Local Open Scope Z_scope.

(** ** JavaScript values *)

Module JS.

(** A JavaScript string, as its UTF-16 code units. *)
Definition jsstring := list N.

(** The code units of an ASCII literal. *)
Definition of_string (s : string) : jsstring :=
  map Ascii.N_of_ascii (String.list_ascii_of_string s).

(** [!s] for a string: only the empty string is falsy. *)
Definition falsy (s : jsstring) : bool :=
  match s with [] => true | _ :: _ => false end.

(** Number to string conversion, as in a template literal, of an integer. *)
Definition show (n : Z) : string := NilZero.string_of_int (Z.to_int n).

(** [x || d] for a number that may be missing: [undefined] and [0] are
    falsy. *)
Definition num_or (x : option Z) (d : Z) : Z :=
  match x with
  | Some n => if n =? 0 then d else n
  | None => d
  end.

(** [x || d] for an array that may be missing: every array is truthy. *)
Definition arr_or {A} (x : option (list A)) (d : list A) : list A :=
  match x with
  | Some l => l
  | None => d
  end.

(** [Math.ceil(a / b)] for integers [a] and [b], [b] positive. *)
Definition ceil_div (a b : Z) : Z := - ((- a) / b).

(** An exception value: its [name] and [message] properties. *)
Record exn := Exn { name : string; message : string }.

(** [new Error(msg)]. *)
Definition Error (msg : string) : exn := Exn "Error" msg.

(** ** [encodeURIComponent] (ECMA-262, abstract operation Encode) *)

(** The unescaped set: letters, digits and [- _ . ! ~ * ' ( )]. *)
Definition unreserved (c : N) : bool :=
  ((65 <=? c) && (c <=? 90) || (97 <=? c) && (c <=? 122)
   || (48 <=? c) && (c <=? 57)
   || bool_decide (c ∈ [45; 95; 46; 33; 126; 42; 39; 40; 41]))%N.

Definition is_lead (c : N) : bool := ((55296 <=? c) && (c <=? 56319))%N.
Definition is_trail (c : N) : bool := ((56320 <=? c) && (c <=? 57343))%N.

(** The UTF-8 octets of a code point. *)
Definition utf8 (cp : N) : list N :=
  (if cp <? 128 then [cp]
   else if cp <? 2048 then [192 + cp / 64; 128 + cp mod 64]
   else if cp <? 65536 then
     [224 + cp / 4096; 128 + (cp / 64) mod 64; 128 + cp mod 64]
   else
     [240 + cp / 262144; 128 + (cp / 4096) mod 64;
      128 + (cp / 64) mod 64; 128 + cp mod 64])%N.

Definition hex_digit (d : N) : Ascii.ascii :=
  Ascii.ascii_of_N (if d <? 10 then 48 + d else 55 + d)%N.

(** ["%XX"], two upper-case hexadecimal digits. *)
Definition percent (octet : N) (rest : string) : string :=
  String (Ascii.ascii_of_N 37) (String (hex_digit (octet / 16)%N)
                     (String (hex_digit (octet mod 16)%N) rest)).

Definition escape (cp : N) (rest : string) : string :=
  foldr percent rest (utf8 cp).

(** [None] stands for the URIError thrown at an unpaired surrogate. *)
Fixpoint encodeURIComponent (s : jsstring) : option string :=
  match s with
  | [] => Some EmptyString
  | c :: rest =>
      if unreserved c then String (Ascii.ascii_of_N c) <$> encodeURIComponent rest
      else if is_trail c then None
      else if is_lead c then
        match rest with
        | c2 :: rest' =>
            if is_trail c2 then
              escape ((c - 55296) * 1024 + (c2 - 56320) + 65536)%N
                <$> encodeURIComponent rest'
            else None
        | [] => None
        end
      else escape c <$> encodeURIComponent rest
  end.

Definition URIError : exn := Exn "URIError" "URI malformed".

End JS.

Import JS.

(** ** Records of the search API *)

(** One element of [docs]; the optional fields may be missing. *)
Record doc := Doc {
  key : string;
  title : string;
  author_name : option (list string);
  first_publish_year : option Z;
  cover_i : option Z;
  isbn : option (list string)
}.

(** The value [res.json()] resolves to. Reading a property of [null]
    throws; any other JSON value is read as an object, [docs] and
    [numFound] being [undefined] where it does not carry them. *)
Inductive data :=
| DNull
| DObj (docs : option (list doc)) (numFound : option Z).

(** [coverUrl(doc)], [None] for [null]. The two tests are truthiness tests:
    a [cover_i] that is missing or [0] fails the first, an [isbn] that is
    missing or of length [0] fails the second. *)
Definition coverUrl (d : doc) : option string :=
  let by_isbn :=
    match isbn d with
    | Some (i :: _) =>
        Some ("https://covers.openlibrary.org/b/isbn/" +:+ i +:+ "-M.jpg")
    | Some [] | None => None
    end in
  match cover_i d with
  | Some n =>
      if n =? 0 then by_isbn
      else Some ("https://covers.openlibrary.org/b/id/" +:+ show n +:+ "-M.jpg")
  | None => by_isbn
  end.

(** ** The network *)

(** What a request settles to: the promise of [fetch] rejects, or it
    resolves to a response with a status, whose [json()] promise in turn
    rejects with a SyntaxError of some message (the body is not JSON) or
    resolves to the parsed body. *)
Inductive outcome :=
| Rejected (e : exn)
| Response (status : Z) (body : string + data).

(** [res.ok]: the status is in the range 200-299. *)
Definition ok (status : Z) : bool := (200 <=? status) && (status <=? 299).

(** An [AbortController]: whether [abort()] was called on it, the URL of
    the request made with its signal (if one was made), and whether that
    request has settled: resolved, or rejected. *)
Record controller := Controller {
  aborted : bool;
  url : option string;
  settled : bool
}.

Definition abort (c : controller) : controller :=
  Controller true (url c) (settled c).

Definition settle (c : controller) : controller :=
  Controller (aborted c) (url c) true.

(** What a request rejects with once its signal is aborted. *)
Definition AbortError : exn := Exn "AbortError" "The user aborted a request.".

Definition SyntaxError (msg : string) : exn := Exn "SyntaxError" msg.

(** What reading [data.docs] throws when [data] is [null]. *)
Definition TypeError_null : exn :=
  Exn "TypeError" "Cannot read properties of null (reading 'docs')".

(** ** The state of the component *)

(** The [useState] cells: [query], the cell [v] of [useDebounced] (which
    [App] reads as [debouncedQuery]), [page], [results], [numFound],
    [loading] and [error] ([None] for [null]). *)
Record cells := Cells {
  query : jsstring;
  debouncedQuery : jsstring;
  page : Z;
  results : list doc;
  numFound : Z;
  loading : bool;
  error : option string
}.

Definition setQuery (x : jsstring) (s : cells) : cells :=
  Cells x (debouncedQuery s) (page s) (results s) (numFound s) (loading s) (error s).
Definition setV (x : jsstring) (s : cells) : cells :=
  Cells (query s) x (page s) (results s) (numFound s) (loading s) (error s).
Definition setPage (x : Z) (s : cells) : cells :=
  Cells (query s) (debouncedQuery s) x (results s) (numFound s) (loading s) (error s).
Definition setResults (x : list doc) (s : cells) : cells :=
  Cells (query s) (debouncedQuery s) (page s) x (numFound s) (loading s) (error s).
Definition setNumFound (x : Z) (s : cells) : cells :=
  Cells (query s) (debouncedQuery s) (page s) (results s) x (loading s) (error s).
Definition setLoading (x : bool) (s : cells) : cells :=
  Cells (query s) (debouncedQuery s) (page s) (results s) (numFound s) x (error s).
Definition setError (x : option string) (s : cells) : cells :=
  Cells (query s) (debouncedQuery s) (page s) (results s) (numFound s) (loading s) x.

(** A timeout made by [setTimeout(() => setV(value), delay)]: the time it
    is due, the [value] its callback captured, and whether it is still to
    run, having neither run nor been cleared. *)
Record timeout := Timeout {
  due : nat;
  captured : jsstring;
  live : bool
}.

Definition clear (t : timeout) : timeout := Timeout (due t) (captured t) false.

(** The component between two events: its cells; the timeouts made so
    far, a timeout being named by its position, which is the id that
    [setTimeout] returned; what React remembers of each effect (the
    dependencies of its last run, [None] before the first, and what its
    cleanup holds: the [id] of the timeout of [useDebounced] and the
    controller of the fetch effect); the controllers created so far, a
    controller being named by its position; the clock; and the calls of
    [setV] made by timer callbacks so far, with their times. *)
Record App := MkApp {
  hooks :> cells;
  timeouts : list timeout;
  debounce_deps : option jsstring;
  reset_deps : option jsstring;
  fetch_deps : option (jsstring * Z);
  timer_id : option nat;
  cleanup : option nat;
  controllers : list controller;
  now : nat;
  emitted : list (nat * jsstring)
}.

(** A state update made through one of the setters. *)
Definition update (f : cells → cells) (st : App) : App :=
  MkApp (f st) (timeouts st) (debounce_deps st) (reset_deps st) (fetch_deps st)
        (timer_id st) (cleanup st) (controllers st) (now st) (emitted st).

Definition with_timeouts (ts : list timeout) (st : App) : App :=
  MkApp st ts (debounce_deps st) (reset_deps st) (fetch_deps st)
        (timer_id st) (cleanup st) (controllers st) (now st) (emitted st).

Definition with_controllers (cs : list controller) (st : App) : App :=
  MkApp st (timeouts st) (debounce_deps st) (reset_deps st) (fetch_deps st)
        (timer_id st) (cleanup st) cs (now st) (emitted st).

Definition with_cleanup (c : option nat) (st : App) : App :=
  MkApp st (timeouts st) (debounce_deps st) (reset_deps st) (fetch_deps st)
        (timer_id st) c (controllers st) (now st) (emitted st).

(** The clock reads [t]. *)
Definition at_time (t : nat) (st : App) : App :=
  MkApp st (timeouts st) (debounce_deps st) (reset_deps st) (fetch_deps st)
        (timer_id st) (cleanup st) (controllers st) t (emitted st).

Definition perPage : Z := 20.

(** The default of [useDebounced]'s parameter [delay]; [App] passes none. *)
Definition delay : nat := 450.

(** ** [fetchBooks] *)

(** [fetch(url, { signal })] with the signal of controller [c]. *)
Definition fetch (u : string) (c : nat) (st : App) : App :=
  with_controllers
    (alter (λ k, Controller (aborted k) (Some u) (settled k)) c (controllers st))
    st.

Definition search_url (q : string) (start : Z) : string :=
  "https://openlibrary.org/search.json?title=" +:+ q
  +:+ "&limit=" +:+ show perPage +:+ "&offset=" +:+ show start.

(** The [catch] clause. *)
Definition fetchBooks_catch (err : exn) (s : cells) : cells :=
  if String.eqb (name err) "AbortError" then s
  else setError (Some (message err)) s.

(** The [finally] clause. *)
Definition fetchBooks_finally (s : cells) : cells := setLoading false s.

(** [fetchBooks()] up to [await fetch(...)], for the render that saw
    [debouncedQuery] and [page] and the controller [c] of this run of the
    effect. [encodeURIComponent] may throw inside the [try]. *)
Definition fetchBooks (debouncedQuery : jsstring) (page : Z) (c : nat)
    (st : App) : App :=
  let st := update (setLoading true) st in
  let st := update (setError None) st in
  let start := (page - 1) * perPage in
  match encodeURIComponent debouncedQuery with
  | Some q => fetch (search_url q start) c st
  | None =>
      update fetchBooks_finally (update (fetchBooks_catch URIError) st)
  end.

(** The rest of the [try] block once the request has settled: the cells
    it leaves, or the exception it leaves to [catch]. No cell is written
    before the last point that may throw. *)
Definition fetchBooks_try (o : outcome) (s : cells) : exn + cells :=
  match o with
  | Rejected e => inl e
  | Response status body =>
      if negb (ok status) then inl (Error "Network response was not ok")
      else
        match body with
        | inl msg => inl (SyntaxError msg)
        | inr DNull => inl TypeError_null
        | inr (DObj docs n) =>
            inr (setNumFound (num_or n 0) (setResults (arr_or docs []) s))
        end
  end.

(** [fetchBooks()] from [await fetch(...)] on. *)
Definition fetchBooks_resume (o : outcome) (s : cells) : cells :=
  fetchBooks_finally
    match fetchBooks_try o s with
    | inr s' => s'
    | inl err => fetchBooks_catch err s
    end.

(** The request of controller [c] settles to [o], and the call of
    [fetchBooks] that awaits it resumes. *)
Definition resume (c : nat) (o : outcome) (st : App) : App :=
  update (fetchBooks_resume o)
    (with_controllers (alter settle c (controllers st)) st).

(** What [abort()] does to the request of controller [c], where the
    cleanup held one: a request that has not settled rejects with an
    AbortError, and the call of [fetchBooks] that awaits it resumes. *)
Definition rejected (c : option nat) (st : App) : App :=
  match c with
  | Some c =>
      match controllers st !! c with
      | Some (Controller true (Some _) false) =>
          resume c (Rejected AbortError) st
      | _ => st
      end
  | None => st
  end.

(** ** The effects *)

(** [clearTimeout(id)]: the timeout does not run any more. Nothing
    happens when it has run already. *)
Definition clearTimeout (id : nat) (st : App) : App :=
  with_timeouts (alter clear id (timeouts st)) st.

(** The cleanup of the effect of [useDebounced]: [clearTimeout(id)], for
    the [id] of the last run. *)
Definition useDebounced_cleanup (st : App) : App :=
  match timer_id st with
  | Some id => clearTimeout id st
  | None => st
  end.

(** The effect of [useDebounced]:
    [const id = setTimeout(() => setV(value), delay)]. *)
Definition useDebounced_effect (value : jsstring) (st : App) : App :=
  let id := length (timeouts st) in
  MkApp st (timeouts st ++ [Timeout (now st + delay) value true]) (Some value)
        (reset_deps st) (fetch_deps st) (Some id) (cleanup st) (controllers st)
        (now st) (emitted st).

(** The page-reset effect: [setPage(1)]. *)
Definition reset_effect (debouncedQuery : jsstring) (st : App) : App :=
  MkApp (setPage 1 st) (timeouts st) (debounce_deps st) (Some debouncedQuery)
        (fetch_deps st) (timer_id st) (cleanup st) (controllers st) (now st)
        (emitted st).

(** The cleanup of the fetch effect: [controller.abort()], where the last
    run returned one. *)
Definition fetch_cleanup (st : App) : App :=
  match cleanup st with
  | Some c => with_controllers (alter abort c (controllers st)) st
  | None => st
  end.

(** The fetch effect, for the render that saw [debouncedQuery] and [page]. *)
Definition fetch_effect (debouncedQuery : jsstring) (page : Z) (st : App) : App :=
  let st :=
    MkApp st (timeouts st) (debounce_deps st) (reset_deps st)
          (Some (debouncedQuery, page)) (timer_id st) (cleanup st)
          (controllers st) (now st) (emitted st) in
  if falsy debouncedQuery then
    let st := update (setResults []) st in
    let st := update (setNumFound 0) st in
    let st := update (setError None) st in
    with_cleanup None st
  else
    let c := length (controllers st) in
    let st := with_controllers (controllers st ++ [Controller false None false]) st in
    let st := fetchBooks debouncedQuery page c st in
    with_cleanup (Some c) st.

(** An effect runs after a render when one of its dependencies differs
    from the last run's. *)
Definition changed {A} `{EqDecision A} (last : option A) (x : A) : bool :=
  bool_decide (last ≠ Some x).

(** One render and its effects. The render closes over the cells as they
    are when it starts; the effects that are due run in the order of the
    hooks, all cleanups before all effects, and the cells they set are
    seen by the next render only. The request that the cleanup of the
    fetch effect aborted rejects after the effects have returned, that is
    after the call of [fetchBooks] this render made. *)
Definition commit (st : App) : App :=
  let value := query st in
  let debouncedQuery := debouncedQuery st in
  let page := page st in
  let debounce_due := changed (debounce_deps st) value in
  let reset_due := changed (reset_deps st) debouncedQuery in
  let fetch_due := changed (fetch_deps st) (debouncedQuery, page) in
  let superseded := cleanup st in
  let st := if debounce_due then useDebounced_cleanup st else st in
  let st := if fetch_due then fetch_cleanup st else st in
  let st := if debounce_due then useDebounced_effect value st else st in
  let st := if reset_due then reset_effect debouncedQuery st else st in
  let st := if fetch_due then fetch_effect debouncedQuery page st else st in
  if fetch_due then rejected superseded st else st.

(** No effect is due: a render of this state changes nothing. *)
Definition stable (st : App) : bool :=
  negb (changed (debounce_deps st) (query st)
        || changed (reset_deps st) (debouncedQuery st)
        || changed (fetch_deps st) (debouncedQuery st, page st)).

(** Render until no effect is due. *)
Fixpoint flush (fuel : nat) (st : App) : App :=
  if stable st then st
  else match fuel with
       | O => st
       | S fuel => flush fuel (commit st)
       end.

(** Two renders always suffice (lemma [rerender_stable] below). *)
Definition rerender (st : App) : App := flush 2 st.

(** ** Rendered values and events *)

Definition totalPages (st : cells) : Z := ceil_div (numFound st) perPage.

(** [Page {page} of {Math.max(1, totalPages)}]. *)
Definition displayedPages (st : cells) : Z := Z.max 1 (totalPages st).

Definition prev_disabled (st : cells) : bool := bool_decide (page st = 1).

Definition next_disabled (st : cells) : bool :=
  bool_decide (page st = totalPages st) || bool_decide (totalPages st = 0).

(** [() => setPage((p) => Math.max(1, p - 1))]. *)
Definition onPrev (st : cells) : cells :=
  setPage (Z.max 1 (page st - 1)) st.

(** [() => setPage((p) => Math.min(totalPages || 1, p + 1))]. *)
Definition onNext (st : cells) : cells :=
  let totalPages := totalPages st in
  setPage (Z.min (if totalPages =? 0 then 1 else totalPages) (page st + 1)) st.

(** The timeout that runs next: of those still to run, the one that is
    due first, and the oldest of those due together. [id] is the position
    of the head of [ts]. *)
Fixpoint next_timeout (ts : list timeout) (id : nat) : option (nat * timeout) :=
  match ts with
  | [] => None
  | t :: ts =>
      let later := next_timeout ts (S id) in
      if live t then
        match later with
        | Some (_, t') => if (due t <=? due t')%nat then Some (id, t) else later
        | None => Some (id, t)
        end
      else later
  end.

(** The timeout that runs next, as the time it is due and the value it
    holds. *)
Definition timer (st : App) : option (nat * jsstring) :=
  (λ it, (due it.2, captured it.2)) <$> next_timeout (timeouts st) 0.

(** The callback of timeout [id] runs, when the timeout is due. *)
Definition fire (id : nat) (t : timeout) (st : App) : App :=
  let time := Nat.max (now st) (due t) in
  MkApp (setV (captured t) st) (alter clear id (timeouts st)) (debounce_deps st)
        (reset_deps st) (fetch_deps st) (timer_id st) (cleanup st)
        (controllers st) time (emitted st ++ [(time, captured t)]).

(** The timeouts that are due by the time [until] run, one after the
    other, each followed by the renders it causes. A callback makes no
    timeout, so that there are no more turns than timeouts. *)
Fixpoint run_timers (fuel : nat) (until : nat) (st : App) : App :=
  match fuel with
  | O => st
  | S fuel =>
      match next_timeout (timeouts st) 0 with
      | Some (id, t) =>
          if bool_decide (due t ≤ until)%nat
          then run_timers fuel until (rerender (fire id t st))
          else st
      | None => st
      end
  end.

Inductive event :=
| Change (value : jsstring)       (* [onChange] of the input *)
| Clear                           (* the Clear button *)
| Prev                            (* the Prev button *)
| Next                            (* the Next button *)
| Wait (ms : nat)                 (* time passes *)
| Settle (c : nat) (o : outcome). (* the request of controller [c] settles *)

(** A disabled button delivers no click. Only a request in flight settles
    to what the network gives: one whose signal was aborted has rejected
    already. *)
Definition step (st : App) (e : event) : App :=
  match e with
  | Change value => rerender (update (setQuery value) st)
  | Clear => rerender (update (setQuery []) st)
  | Prev => if prev_disabled st then st else rerender (update onPrev st)
  | Next => if next_disabled st then st else rerender (update onNext st)
  | Wait ms =>
      let until := (now st + ms)%nat in
      at_time until (run_timers (length (timeouts st)) until st)
  | Settle c o =>
      match controllers st !! c with
      | Some (Controller false (Some _) false) => rerender (resume c o st)
      | _ => st
      end
  end.

Definition run (st : App) (es : list event) : App := foldl step st es.

(** Before the first render, and after the component has mounted. *)
Definition unmounted : App :=
  MkApp (Cells [] [] 1 [] 0 false None) [] None None None None None [] 0 [].

Definition mounted : App := rerender unmounted.

Inductive reachable : App → Prop :=
| reachable_mounted : reachable mounted
| reachable_step st e : reachable st → reachable (step st e).

(** ** Notions used by the properties *)

(** A request is in flight: made, not settled, its signal not aborted. *)
Definition in_flight (st : App) (c : nat) : Prop :=
  ∃ u, controllers st !! c = Some (Controller false (Some u) false).

(** The same, as a test. *)
Definition in_flightb (st : App) (c : nat) : bool :=
  match controllers st !! c with
  | Some (Controller false (Some _) false) => true
  | _ => false
  end.

Definition idle (st : App) : Prop := ∀ c, ¬ in_flight st c.

(** The request in flight, if any, is the one the fetch effect's cleanup
    will abort, and no error is shown while it is in flight. *)
Definition single_request (st : App) : Prop :=
  (∀ c, in_flight st c → cleanup st = Some c ∧ error st = None)
  ∧ (∀ c, cleanup st = Some c → (c < length (controllers st))%nat).

(** What the fetch effect and its cleanup never touch. *)
Record frame (st st' : App) : Prop := {
  frame_query : query st' = query st;
  frame_debouncedQuery : debouncedQuery st' = debouncedQuery st;
  frame_timeouts : timeouts st' = timeouts st;
  frame_timer_id : timer_id st' = timer_id st;
  frame_debounce_deps : debounce_deps st' = debounce_deps st;
  frame_reset_deps : reset_deps st' = reset_deps st;
  frame_now : now st' = now st;
  frame_emitted : emitted st' = emitted st
}.

(** A change that touches neither the controllers, nor the cleanup, nor
    the error cell. *)
Definition same_requests (st st' : App) : Prop :=
  controllers st' = controllers st ∧ cleanup st' = cleanup st
  ∧ error st' = error st.

(** The ways a request fails other than by cancellation, with the
    exception each leaves to the [catch] clause: a transport error, a
    status outside 200-299, a body that is not JSON, a [null] body. *)
Inductive request_failure : outcome → exn → Prop :=
| transport_error e :
    request_failure (Rejected e) e
| bad_status status body :
    ¬ (200 ≤ status ≤ 299) →
    request_failure (Response status body) (Error "Network response was not ok")
| not_json status msg :
    200 ≤ status ≤ 299 →
    request_failure (Response status (inl msg)) (SyntaxError msg)
| null_body status :
    200 ≤ status ≤ 299 →
    request_failure (Response status (inr DNull)) TypeError_null.

(** Keystrokes that follow a first one: each comes [gap] milliseconds
    after the one before and sets the input to [value]. *)
Fixpoint keystrokes (l : list (nat * jsstring)) : list event :=
  match l with
  | [] => []
  | (gap, value) :: l => Wait gap :: Change value :: keystrokes l
  end.

(** Each value of the list differs from the one before it, the first from
    [prev]: every keystroke changes the input. *)
Fixpoint all_changes (prev : jsstring) (l : list jsstring) : Prop :=
  match l with
  | [] => True
  | value :: l => value ≠ prev ∧ all_changes value l
  end.

(** The server never reports a negative count. *)
Definition count_nonneg (e : event) : Prop :=
  match e with
  | Settle _ (Response _ (inr (DObj _ (Some n)))) => 0 ≤ n
  | _ => True
  end.

(** The two forms of cover URL. *)
Definition cover_by_id (n : Z) : string :=
  "https://covers.openlibrary.org/b/id/" +:+ show n +:+ "-M.jpg".

Definition cover_by_isbn (i : string) : string :=
  "https://covers.openlibrary.org/b/isbn/" +:+ i +:+ "-M.jpg".


(** The page is at least 1 and the count is not negative. *)
Definition page_positive (s : cells) : Prop := 1 ≤ page s ∧ 0 ≤ numFound s.

(** The empty query is on screen: nothing found, no error, no cleanup. *)
Definition cleared (st : App) : Prop :=
  debouncedQuery st = [] ∧ results st = [] ∧ numFound st = 0
  ∧ error st = None ∧ cleanup st = None.

(** ** Sample values *)

Module Sample.

Definition dune : jsstring := of_string "Dune".
Definition emma : jsstring := of_string "Emma".

Definition book : doc :=
  Doc "/works/OL893415W" "Dune" (Some ["Frank Herbert"]) (Some 1965)
      (Some 11481354) (Some ["9780441013593"; "0441013597"]).

(** A page of results for a query that has [n] matches. *)
Definition found (n : Z) : outcome :=
  Response 200 (inr (DObj (Some (replicate 20 book)) (Some n))).

(** The first page of 45 matches for "Dune" is on screen. *)
Definition first_page : App :=
  run mounted [Change dune; Wait 450; Settle 0 (found 45)].

(** Next was clicked: the request for the second page is in flight. *)
Definition second_page : App := run first_page [Next].

End Sample.

(** ** The rest of the component *)

(** Teardown: React runs the cleanup of every effect, here
    [clearTimeout(id)] and [controller.abort()], and drops the state of
    the component: what a setter is given afterwards is lost. *)
Definition unmount (st : App) : App := fetch_cleanup (useDebounced_cleanup st).

(** [error && <div>Error: {error}</div>]: the banner shows for an error
    that is a string other than the empty one. *)
Definition error_banner (s : cells) : option string :=
  match error s with
  | Some msg => if String.eqb msg "" then None else Some msg
  | None => None
  end.

(** [!loading && results.length === 0 && debouncedQuery && !error]: the
    line "No results found." shows. *)
Definition no_results_shown (s : cells) : bool :=
  negb (loading s) && bool_decide (length (results s) = 0%nat)
  && negb (falsy (debouncedQuery s)) && bool_decide (error_banner s = None).

(** A request is pending: made and not settled, aborted or not. *)
Definition pending (st : App) (c : nat) : Prop :=
  ∃ ab u, controllers st !! c = Some (Controller ab (Some u) false).

(** A timeout that is still to run is the one that the cleanup of the
    effect of [useDebounced] holds. *)
Definition one_timeout (st : App) : Prop :=
  ∀ id t, timeouts st !! id = Some t → live t = true → timer_id st = Some id.

(** A timeout that is still to run is the one of the last run of the
    effect of [useDebounced]: it holds the raw query and is due within the
    delay. With no timeout to run, the debounced query is the raw query. *)
Definition timer_current (st : App) : Prop :=
  (∀ id t, timeouts st !! id = Some t → live t = true →
     timer_id st = Some id ∧ captured t = query st
     ∧ (now st < due t ≤ now st + delay)%nat)
  ∧ ((∀ id t, timeouts st !! id = Some t → live t = false) →
     debouncedQuery st = query st).

(** The state in which the renders start once the callback of the timer
    has run: the debounced query is [value], at time [d]. *)
Definition fired (st : App) (d : nat) (value : jsstring) (s : App) : Prop :=
  hooks s = setV value st ∧ debounce_deps s = debounce_deps st
  ∧ reset_deps s = reset_deps st ∧ fetch_deps s = fetch_deps st
  ∧ cleanup s = cleanup st ∧ controllers s = controllers st
  ∧ emitted s = emitted st ++ [(d, value)]
  ∧ timer s = None ∧ timer_id s = timer_id st.

(** The request in flight, if any, was made for the dependencies of the
    last run of the fetch effect. *)
Definition request_current (st : App) : Prop :=
  ∀ c u, controllers st !! c = Some (Controller false (Some u) false) →
    ∃ d p q, fetch_deps st = Some (d, p) ∧ d ≠ []
             ∧ encodeURIComponent d = Some q
             ∧ u = search_url q ((p - 1) * perPage).

(** The characters [encodeURIComponent] produces: the unreserved ones,
    the percent sign and the upper-case hexadecimal digits. *)
Definition url_safe (a : Ascii.ascii) : bool :=
  let c := Ascii.N_of_ascii a in
  (unreserved c || bool_decide (c = 37))%N.

(** A string of UTF-16 code units without unpaired surrogate. *)
Inductive well_formed : jsstring → Prop :=
| wf_nil : well_formed []
| wf_unit c s :
    is_lead c = false → is_trail c = false → well_formed s →
    well_formed (c :: s)
| wf_pair c c' s :
    is_lead c = true → is_trail c' = true → well_formed s →
    well_formed (c :: c' :: s).

(** The request that the cleanup of the fetch effect holds has not
    settled: the cleanup supersedes it. *)
Definition supersedes (st : App) : bool :=
  match cleanup st with
  | Some c =>
      match controllers st !! c with
      | Some (Controller _ (Some _) false) => true
      | _ => false
      end
  | None => false
  end.

(** The cleanup of the fetch effect and what follows from it: the request
    of the controller is aborted, and rejects if it had not settled. *)
Definition supersede (st : App) : App :=
  rejected (cleanup st) (fetch_cleanup st).

(** The controller that a run of the fetch effect adds: none for the
    empty query, and otherwise one, with the URL of the request where
    [encodeURIComponent] did not throw. *)
Definition new_controller (d : jsstring) (p : Z) : list controller :=
  if falsy d then []
  else [Controller false
          ((λ q, search_url q ((p - 1) * perPage)) <$> encodeURIComponent d)
          false].

(** The cells that a run of the fetch effect leaves. *)
Definition fetch_effect_cells (d : jsstring) (s : cells) : cells :=
  if falsy d then setError None (setNumFound 0 (setResults [] s))
  else match encodeURIComponent d with
       | Some _ => setError None (setLoading true s)
       | None => setLoading false (setError (Some (message URIError)) s)
       end.

(** A request whose signal was aborted is not pending: it has rejected. *)
Definition aborts_delivered (st : App) : Prop :=
  ∀ c, pending st c → in_flight st c.

(** While [loading] is set, some request is in flight. *)
Definition loading_in_flight (st : App) : Prop :=
  loading st = true → ∃ c, in_flight st c.

(** With an empty debounced query nothing is on screen and the page is
    the first. *)
Definition empty_screen (st : App) : Prop :=
  debouncedQuery st = [] → cleared st ∧ page st = 1.

(** ** Another sample state *)

Module Scenario.

(** The second page of "Dune" is on screen and "Emma" has just been typed. *)
Definition retyped : App := run Sample.second_page [Change Sample.emma].

End Scenario.

(** Every character of a string is one that [encodeURIComponent]
    produces. *)
Definition safe_string (s : string) : Prop :=
  Forall (λ a, url_safe a = true) (String.list_ascii_of_string s).

(** The code units of a JavaScript string are 16-bit. *)
Definition code_units (s : jsstring) : Prop := Forall (λ c, (c < 65536)%N) s.

(** * Properties *)

(** ** The built-ins on examples *)

Example encode_alchemist :
  encodeURIComponent (of_string "The Alchemist") = Some "The%20Alchemist".
Proof. reflexivity. Qed.

(* e-acute, euro sign, and U+1F600 as a surrogate pair *)
Example encode_unicode :
  encodeURIComponent [233; 8364; 55357; 56832]%N
  = Some "%C3%A9%E2%82%AC%F0%9F%98%80".
Proof. reflexivity. Qed.

Example encode_lone_surrogate : encodeURIComponent [55296]%N = None.
Proof. reflexivity. Qed.

Example show_neg : show (-40) = "-40".
Proof. reflexivity. Qed.

Lemma num_or_default (x : option Z) : num_or x 0 = default 0 x.
Proof. destruct x as [n|]; cbn; [|done]. by destruct (Z.eqb_spec n 0). Qed.

Lemma ok_spec status : ok status = true ↔ 200 ≤ status ≤ 299.
Proof. unfold ok. rewrite andb_true_iff, !Z.leb_le. tauto. Qed.

(** [Math.ceil(a / b)] is the least integer [t] with [a <= b * t]. *)
Lemma ceil_div_spec a b :
  0 < b → b * (ceil_div a b - 1) < a ≤ b * ceil_div a b.
Proof.
  intros Hb. unfold ceil_div.
  pose proof (Z.div_mod (- a) b ltac:(lia)).
  pose proof (Z.mod_pos_bound (- a) b Hb). nia.
Qed.

(** ** Renders and effects *)

Lemma changed_false {A} `{EqDecision A} (last : option A) (x : A) :
  changed last x = false ↔ last = Some x.
Proof.
  unfold changed. rewrite bool_decide_eq_false. split; [|congruence].
  intros Hn. destruct (decide (last = Some x)); [done|contradiction].
Qed.

Lemma changed_Some {A} `{EqDecision A} (x : A) : changed (Some x) x = false.
Proof. by apply changed_false. Qed.

Lemma changed_true {A} `{EqDecision A} (last : option A) (x : A) :
  changed last x = true ↔ last ≠ Some x.
Proof. apply bool_decide_eq_true. Qed.

Lemma stable_spec st :
  stable st = true ↔
  debounce_deps st = Some (query st) ∧ reset_deps st = Some (debouncedQuery st)
  ∧ fetch_deps st = Some (debouncedQuery st, page st).
Proof.
  unfold stable. rewrite negb_true_iff, !orb_false_iff, !changed_false. tauto.
Qed.

Lemma fetch_effect_frame d p st : frame st (fetch_effect d p st).
Proof.
  unfold fetch_effect, fetchBooks, fetch.
  destruct (falsy d); [done|]. by destruct (encodeURIComponent d).
Qed.

Lemma fetch_effect_page d p st : page (fetch_effect d p st) = page st.
Proof.
  unfold fetch_effect, fetchBooks, fetch.
  destruct (falsy d); [done|]. by destruct (encodeURIComponent d).
Qed.

Lemma fetch_effect_deps d p st : fetch_deps (fetch_effect d p st) = Some (d, p).
Proof.
  unfold fetch_effect, fetchBooks, fetch.
  destruct (falsy d); [done|]. by destruct (encodeURIComponent d).
Qed.

Lemma fetch_cleanup_frame st : frame st (fetch_cleanup st).
Proof. unfold fetch_cleanup. by destruct (cleanup st). Qed.

Lemma fetch_cleanup_cells st : hooks (fetch_cleanup st) = hooks st.
Proof. unfold fetch_cleanup. by destruct (cleanup st). Qed.

Lemma fetch_cleanup_deps st : fetch_deps (fetch_cleanup st) = fetch_deps st.
Proof. unfold fetch_cleanup. by destruct (cleanup st). Qed.

(** The rejection of an aborted request: nothing happens, or the request
    settles and [loading] is cleared. *)
Lemma rejected_cases c st :
  rejected c st = st
  ∨ ∃ k u, c = Some k
           ∧ controllers st !! k = Some (Controller true (Some u) false)
           ∧ rejected c st
             = update (setLoading false)
                 (with_controllers (alter settle k (controllers st)) st).
Proof.
  destruct c as [k|]; [|by left]. cbn.
  destruct (controllers st !! k) as [[[] [u|] []]|] eqn:Hk; auto.
  right. by exists k, u.
Qed.

(** It writes no cell but [loading], and nothing else but the
    controllers. *)
Lemma rejected_spec c st :
  ∃ l cs, rejected c st = update (setLoading l) (with_controllers cs st).
Proof.
  destruct (rejected_cases c st) as [->|(k & u & _ & _ & ->)].
  - exists (loading st), (controllers st). by destruct st as [[]].
  - by eexists _, _.
Qed.

Lemma useDebounced_cleanup_spec st :
  ∃ ts, useDebounced_cleanup st = with_timeouts ts st.
Proof.
  exists (timeouts (useDebounced_cleanup st)).
  unfold useDebounced_cleanup, clearTimeout.
  destruct (timer_id st); by destruct st.
Qed.

(** What one render leaves of the cells that effects depend on, and of the
    remembered dependencies. *)
Lemma commit_deps st :
  query (commit st) = query st
  ∧ debouncedQuery (commit st) = debouncedQuery st
  ∧ page (commit st)
    = (if changed (reset_deps st) (debouncedQuery st) then 1 else page st)
  ∧ debounce_deps (commit st) = Some (query st)
  ∧ reset_deps (commit st) = Some (debouncedQuery st)
  ∧ fetch_deps (commit st) = Some (debouncedQuery st, page st).
Proof.
  unfold commit.
  destruct (useDebounced_cleanup_spec st) as [ts ->].
  destruct (changed (debounce_deps st) (query st)) eqn:Hd;
    destruct (changed (reset_deps st) (debouncedQuery st)) eqn:Hr;
    destruct (changed (fetch_deps st) (debouncedQuery st, page st)) eqn:Hf;
    rewrite ?changed_false in *;
    try match goal with
      | |- context [rejected ?c ?s] =>
          destruct (rejected_spec c s) as (l & cs & ->)
      end;
    cbn [hooks update with_controllers query debouncedQuery page setLoading
         debounce_deps reset_deps fetch_deps];
    rewrite ?fetch_effect_page, ?fetch_effect_deps;
    repeat match goal with
      | |- context [?f (fetch_effect ?d ?p ?s)] =>
          first [ rewrite (frame_query _ _ (fetch_effect_frame d p s))
                | rewrite (frame_debouncedQuery _ _ (fetch_effect_frame d p s))
                | rewrite (frame_debounce_deps _ _ (fetch_effect_frame d p s))
                | rewrite (frame_reset_deps _ _ (fetch_effect_frame d p s)) ]
      end; cbn;
    rewrite ?fetch_cleanup_cells, ?fetch_cleanup_deps;
    rewrite ?(frame_debounce_deps _ _ (fetch_cleanup_frame _)),
            ?(frame_reset_deps _ _ (fetch_cleanup_frame _)); cbn; auto 10.
Qed.

Lemma commit_stable st : stable st = true → commit st = st.
Proof.
  intros Hs. unfold stable in Hs.
  rewrite negb_true_iff, !orb_false_iff in Hs. destruct Hs as [[Hd Hr] Hf].
  unfold commit. by rewrite Hd, Hr, Hf.
Qed.

Lemma commit_twice_stable st : stable (commit (commit st)) = true.
Proof.
  apply stable_spec.
  destruct (commit_deps (commit st)) as (Hq & Hd & Hp & Hdd & Hrd & Hfd).
  destruct (commit_deps st) as (Hq' & Hd' & Hp' & Hdd' & Hrd' & Hfd').
  rewrite Hq, Hd, Hp, Hdd, Hrd, Hfd, Hrd', Hd'.
  rewrite changed_Some. auto.
Qed.

Lemma rerender_stable st : stable (rerender st) = true.
Proof.
  unfold rerender, flush.
  destruct (stable st) eqn:H0; [done|].
  destruct (stable (commit st)) eqn:H1; [done|].
  rewrite commit_twice_stable. apply commit_twice_stable.
Qed.

Lemma rerender_id st : stable st = true → rerender st = st.
Proof. intros Hs. unfold rerender, flush. by rewrite Hs. Qed.

(** ** At most one request in flight *)

Lemma in_flightb_true st c : in_flightb st c = true ↔ in_flight st c.
Proof.
  unfold in_flightb, in_flight. split.
  - destruct (controllers st !! c) as [[[] [u|] []]|]; try discriminate. eauto.
  - by intros [u ->].
Qed.

Lemma in_flight_cases st c : in_flight st c ∨ ¬ in_flight st c.
Proof.
  rewrite <- in_flightb_true. destruct (in_flightb st c); [by left|by right].
Qed.

Lemma idle_single_request st :
  idle st → cleanup st = None → single_request st.
Proof.
  intros Hi Hc. split.
  - intros c Hf. by destruct (Hi c).
  - intros c. by rewrite Hc.
Qed.

Lemma fetch_cleanup_idle st : single_request st → idle (fetch_cleanup st).
Proof.
  intros [Hone Hlt] c' [u Hu]. unfold fetch_cleanup in Hu.
  destruct (cleanup st) as [c|] eqn:Hc; cbn in Hu.
  - destruct (decide (c = c')) as [->|Hne].
    + rewrite list_lookup_alter_eq in Hu.
      destruct (controllers st !! c') as [[]|]; discriminate.
    + rewrite list_lookup_alter_ne in Hu by done.
      destruct (Hone c') as [Hc' _]; [by exists u|congruence].
  - destruct (Hone c') as [Hc' _]; [by exists u|congruence].
Qed.

Lemma fetch_effect_single d p st :
  idle st → single_request (fetch_effect d p st).
Proof.
  intros Hi. unfold fetch_effect.
  destruct (falsy d).
  { apply idle_single_request; [|done]. intros c [u Hu]. apply (Hi c). by exists u. }
  unfold fetchBooks, fetch. destruct (encodeURIComponent d) as [q|]; cbn.
  - split; cbn.
    + intros c [u Hu]. cbn in Hu.
      destruct (decide (length (controllers st) = c)) as [<-|Hne]; [done|].
      rewrite list_lookup_alter_ne in Hu by done.
      apply lookup_snoc_Some in Hu as [[_ Hu]|[? _]]; [|done].
      destruct (Hi c). by exists u.
    + intros c [= <-]. rewrite length_alter, length_app. cbn. lia.
  - split; cbn.
    + intros c [u Hu]. cbn in Hu.
      apply lookup_snoc_Some in Hu as [[_ Hu]|[? Hu]]; [|done].
      destruct (Hi c). by exists u.
    + intros c [= <-]. rewrite length_app. cbn. lia.
Qed.

Lemma same_requests_single st st' :
  same_requests st st' → single_request st → single_request st'.
Proof.
  intros (Hc & Hk & He) [Hone Hlt]. split.
  - intros c [u Hu]. rewrite Hk, He. apply Hone. exists u. by rewrite <- Hc.
  - intros c. rewrite Hk, Hc. apply Hlt.
Qed.

Lemma same_requests_idle st st' :
  controllers st' = controllers st → idle st → idle st'.
Proof. intros Hc Hi c [u Hu]. apply (Hi c). exists u. by rewrite <- Hc. Qed.

(** The rejection of an aborted request leaves the requests in flight in
    flight. *)
Lemma rejected_in_flight c st c' :
  in_flight (rejected c st) c' ↔ in_flight st c'.
Proof.
  destruct (rejected_cases c st) as [->|(k & u & _ & Hk & ->)]; [done|].
  unfold in_flight. cbn. destruct (decide (k = c')) as [->|Hne].
  - rewrite list_lookup_alter_eq, Hk. cbn. split; intros [? [=]].
  - by rewrite list_lookup_alter_ne.
Qed.

Lemma rejected_length c st :
  length (controllers (rejected c st)) = length (controllers st).
Proof.
  destruct (rejected_cases c st) as [->|(k & u & _ & Hk & ->)]; [done|].
  cbn. by rewrite length_alter.
Qed.

Lemma rejected_single c st : single_request st → single_request (rejected c st).
Proof.
  intros [Hone Hlt]. split.
  - intros c' Hc'. apply rejected_in_flight in Hc'.
    destruct (rejected_spec c st) as (l & cs & ->). by apply Hone.
  - intros c' Hc'. rewrite rejected_length.
    destruct (rejected_spec c st) as (l & cs & Heq). rewrite Heq in Hc'.
    by apply Hlt.
Qed.

Lemma commit_single st : single_request st → single_request (commit st).
Proof.
  intros HJ. unfold commit.
  destruct (useDebounced_cleanup_spec st) as [ts Hts].
  destruct (changed (fetch_deps st) (debouncedQuery st, page st)).
  - apply rejected_single, fetch_effect_single.
    assert (idle (fetch_cleanup
      (if changed (debounce_deps st) (query st)
       then useDebounced_cleanup st else st)))
      as Hi.
    { apply fetch_cleanup_idle.
      eapply same_requests_single; [|exact HJ].
      destruct (changed _ _); [by rewrite Hts|done]. }
    revert Hi. apply same_requests_idle.
    by destruct (changed (debounce_deps st) _), (changed (reset_deps st) _).
  - eapply same_requests_single; [|exact HJ]. rewrite Hts.
    by destruct (changed (debounce_deps st) _), (changed (reset_deps st) _).
Qed.

Lemma rerender_single st : single_request st → single_request (rerender st).
Proof.
  intros HJ. unfold rerender, flush.
  repeat destruct (stable _); auto using commit_single.
Qed.

Lemma settle_single st c u o :
  single_request st →
  controllers st !! c = Some (Controller false (Some u) false) →
  single_request (resume c o st).
Proof.
  intros [Hone Hlt] Hc. split; cbn.
  - intros c' [u' Hu']. cbn in Hu'.
    destruct (decide (c = c')) as [->|Hne].
    { rewrite list_lookup_alter_eq, Hc in Hu'. discriminate. }
    rewrite list_lookup_alter_ne in Hu' by done.
    destruct (Hone c') as [Hk He]; [by exists u'|].
    destruct (Hone c) as [Hk' _]; [by exists u|congruence].
  - intros c' Hk. rewrite length_alter. by apply Hlt.
Qed.

Lemma stable_at_time t st : stable (at_time t st) = stable st.
Proof. reflexivity. Qed.

Lemma stable_resume c o st : stable (resume c o st) = stable st.
Proof.
  unfold resume, fetchBooks_resume, fetchBooks_try, fetchBooks_catch.
  destruct o as [e|status [e|[|docs n]]]; cbn;
    repeat (destruct (negb _) || destruct (String.eqb _ _)); reflexivity.
Qed.

(** What every run of a timer callback, with the renders that follow it,
    preserves is preserved by running the timers that are due. *)
Lemma run_timers_preserves (P : App → Prop) fuel until st :
  (∀ id t s, P s → P (rerender (fire id t s))) →
  P st → P (run_timers fuel until st).
Proof.
  intros Hfire. revert st. induction fuel as [|fuel IH]; intros st HP; [done|].
  cbn [run_timers]. destruct (next_timeout _ _) as [[id t]|]; [|done].
  case_bool_decide; [|done]. by apply IH, Hfire.
Qed.

(** Every state between two events has rendered to the end and has at
    most one request in flight. *)
Lemma reachable_inv st : reachable st → stable st = true ∧ single_request st.
Proof.
  induction 1 as [|st e _ [Hs HJ]].
  - split; [apply rerender_stable|].
    apply rerender_single, idle_single_request; [|done].
    intros c [u Hu]. discriminate.
  - destruct e as [value| | | |ms|c o]; cbn [step].
    + split; [apply rerender_stable|].
      apply rerender_single. by eapply same_requests_single.
    + split; [apply rerender_stable|].
      apply rerender_single. by eapply same_requests_single.
    + destruct (prev_disabled st); [done|].
      split; [apply rerender_stable|].
      apply rerender_single. by eapply same_requests_single.
    + destruct (next_disabled st); [done|].
      split; [apply rerender_stable|].
      apply rerender_single. by eapply same_requests_single.
    + rewrite stable_at_time.
      apply (run_timers_preserves
               (λ s, stable (at_time (now st + ms) s) = true
                     ∧ single_request (at_time (now st + ms) s))); [|done].
      intros id t s [_ HJs]. split; [apply rerender_stable|].
      eapply (same_requests_single (rerender (fire id t s))); [done|].
      apply rerender_single.
      by apply (same_requests_single (at_time (now st + ms) s)).
    + destruct (controllers st !! c) as [[[] [u|] []]|] eqn:Hc; try done.
      split; [apply rerender_stable|].
      by eapply rerender_single, settle_single.
Qed.

Lemma reachable_stable st : reachable st → stable st = true.
Proof. intros H. by apply reachable_inv. Qed.

Lemma reachable_single st : reachable st → single_request st.
Proof. intros H. by apply reachable_inv. Qed.

(** ** What renders preserve *)

Lemma commit_clock st :
  now (commit st) = now st ∧ emitted (commit st) = emitted st.
Proof.
  unfold commit.
  destruct (useDebounced_cleanup_spec st) as [ts ->].
  destruct (changed (debounce_deps st) _), (changed (reset_deps st) _),
    (changed (fetch_deps st) _);
    try match goal with
      | |- context [rejected ?c ?s] =>
          destruct (rejected_spec c s) as (l & cs & ->)
      end;
    cbn [update with_controllers now emitted];
    rewrite ?(frame_now _ _ (fetch_effect_frame _ _ _)),
            ?(frame_emitted _ _ (fetch_effect_frame _ _ _)); cbn;
    rewrite ?(frame_now _ _ (fetch_cleanup_frame _)),
            ?(frame_emitted _ _ (fetch_cleanup_frame _)); auto.
Qed.

(** A projection that one render preserves, under a condition that one
    render preserves, is preserved by rendering to the end. *)
Lemma flush_preserves {A} (f : App → A) (P : App → Prop) :
  (∀ st, P st → P (commit st) ∧ f (commit st) = f st) →
  ∀ fuel st, P st → P (flush fuel st) ∧ f (flush fuel st) = f st.
Proof.
  intros Hc fuel. induction fuel as [|fuel IH]; intros st HP; cbn.
  - by destruct (stable st).
  - destruct (stable st); [done|].
    destruct (Hc st HP) as [HP' Hf].
    destruct (IH (commit st) HP') as [HP'' Hf']. split; congruence.
Qed.

Lemma rerender_cells st :
  query (rerender st) = query st
  ∧ debouncedQuery (rerender st) = debouncedQuery st
  ∧ now (rerender st) = now st ∧ emitted (rerender st) = emitted st.
Proof.
  pose proof (commit_deps) as Hd. pose proof commit_clock as Hk.
  unfold rerender. repeat split.
  - apply (flush_preserves (λ s, query s) (λ _, True)); [|done].
    intros s _. split; [done|]. apply Hd.
  - apply (flush_preserves (λ s, debouncedQuery s) (λ _, True)); [|done].
    intros s _. split; [done|]. apply Hd.
  - apply (flush_preserves now (λ _, True)); [|done].
    intros s _. split; [done|]. apply Hk.
  - apply (flush_preserves emitted (λ _, True)); [|done].
    intros s _. split; [done|]. apply Hk.
Qed.

(** Where the page-reset effect is not due, rendering leaves the page. *)
Lemma flush_page fuel (st : App) :
  reset_deps st = Some (debouncedQuery st) → page (flush fuel st) = page st.
Proof.
  intros H.
  apply (flush_preserves (λ s, page s)
           (λ s, reset_deps s = Some (debouncedQuery s))); [|done].
  intros s Hs. destruct (commit_deps s) as (_ & Hd & Hp & _ & Hr & _).
  split; [congruence|]. rewrite Hp. apply changed_false in Hs. by rewrite Hs.
Qed.

Lemma rerender_page st :
  reset_deps st = Some (debouncedQuery st) → page (rerender st) = page st.
Proof. apply flush_page. Qed.

(** Where the page-reset effect is due, rendering ends on page 1. *)
Lemma rerender_page_reset (st : App) :
  reset_deps st ≠ Some (debouncedQuery st) → page (rerender st) = 1.
Proof.
  intros Hr. unfold rerender.
  change (flush 2 st) with (if stable st then st else flush 1 (commit st)).
  assert (stable st = false) as ->.
  { apply not_true_is_false. intros Hs. by apply stable_spec in Hs as (_ & ? & _). }
  destruct (commit_deps st) as (_ & Hd & Hp & _ & Hrd & _).
  rewrite flush_page by congruence.
  rewrite Hp. unfold changed. by rewrite bool_decide_eq_true_2.
Qed.

(** A render in which the effect of [useDebounced] is not due leaves the
    timeouts alone. *)
Lemma commit_timeouts st :
  debounce_deps st = Some (query st) →
  timeouts (commit st) = timeouts st ∧ timer_id (commit st) = timer_id st.
Proof.
  intros Hd. unfold commit. rewrite Hd, changed_Some.
  destruct (changed (reset_deps st) _), (changed (fetch_deps st) _);
    try match goal with
      | |- context [rejected ?c ?s] =>
          destruct (rejected_spec c s) as (l & cs & ->)
      end;
    cbn [update with_controllers timeouts timer_id];
    rewrite ?(frame_timeouts _ _ (fetch_effect_frame _ _ _)),
            ?(frame_timer_id _ _ (fetch_effect_frame _ _ _)); cbn;
    by rewrite ?(frame_timeouts _ _ (fetch_cleanup_frame _)),
               ?(frame_timer_id _ _ (fetch_cleanup_frame _)).
Qed.

Lemma rerender_timeouts st :
  debounce_deps st = Some (query st) →
  timeouts (rerender st) = timeouts st ∧ timer_id (rerender st) = timer_id st.
Proof.
  intros H.
  assert (∀ s, debounce_deps s = Some (query s) →
               debounce_deps (commit s) = Some (query (commit s))) as Hkeep.
  { intros s Hs. destruct (commit_deps s) as (Hq & _ & _ & Hd & _).
    by rewrite Hq, Hd. }
  split.
  - apply (flush_preserves timeouts (λ s, debounce_deps s = Some (query s)));
      [|done].
    intros s Hs. split; [by apply Hkeep|by apply commit_timeouts].
  - apply (flush_preserves timer_id (λ s, debounce_deps s = Some (query s)));
      [|done].
    intros s Hs. split; [by apply Hkeep|by apply commit_timeouts].
Qed.

Lemma reachable_run st es : reachable st → reachable (run st es).
Proof.
  revert st. induction es as [|e es IH]; intros st H; cbn; [done|].
  apply IH. by constructor.
Qed.

Lemma run_cons st e es : run st (e :: es) = run (step st e) es.
Proof. reflexivity. Qed.

Lemma run_app st es es' : run st (es ++ es') = run (run st es) es'.
Proof. apply foldl_app. Qed.

(** ** The page number *)

(** The ways [fetchBooks] ends once its request has settled. *)
Ltac resume_cases o :=
  unfold fetchBooks_resume, fetchBooks_try, fetchBooks_catch;
  destruct o as [[nm msg]|status [msg|[|docs n]]];
  [ cbn [name message]; destruct (String.eqb nm "AbortError")
  | destruct (ok status) | destruct (ok status) | destruct (ok status) ];
  cbn.

Lemma fetch_effect_numFound d p st :
  numFound (fetch_effect d p st) = if falsy d then 0 else numFound st.
Proof.
  unfold fetch_effect, fetchBooks, fetch.
  destruct (falsy d); [done|]. by destruct (encodeURIComponent d).
Qed.

Lemma commit_numFound (st : App) :
  numFound (commit st) = numFound st
  ∨ debouncedQuery st = [] ∧ numFound (commit st) = 0.
Proof.
  unfold commit.
  destruct (useDebounced_cleanup_spec st) as [ts ->].
  destruct (changed (debounce_deps st) _), (changed (reset_deps st) _),
    (changed (fetch_deps st) _);
    try match goal with
      | |- context [rejected ?c ?s] =>
          destruct (rejected_spec c s) as (l & cs & ->)
      end;
    cbn [hooks update with_controllers numFound setLoading];
    rewrite ?fetch_effect_numFound;
    destruct (debouncedQuery st); cbn; rewrite ?fetch_cleanup_cells; cbn; auto.
Qed.

Lemma commit_page_positive (st : App) : page_positive st → page_positive (commit st).
Proof.
  intros [Hp Hn]. split.
  - destruct (commit_deps st) as (_ & _ & -> & _). destruct (changed _ _); lia.
  - destruct (commit_numFound st) as [->|[_ ->]]; lia.
Qed.

Lemma rerender_page_positive (st : App) :
  page_positive st → page_positive (rerender st).
Proof.
  intros H. unfold rerender, flush.
  repeat destruct (stable _); auto using commit_page_positive.
Qed.

Lemma onPrev_page (s : cells) : 1 ≤ page (onPrev s).
Proof. unfold onPrev. cbn [page setPage]. lia. Qed.

Lemma onNext_page (s : cells) : page_positive s → 1 ≤ page (onNext s).
Proof.
  intros [Hp Hn]. unfold onNext. cbn [page setPage].
  pose proof (ceil_div_spec (numFound s) 20 ltac:(lia)) as Hc.
  change (ceil_div (numFound s) 20) with (totalPages s) in Hc.
  destruct (Z.eqb_spec (totalPages s) 0); lia.
Qed.

Lemma resume_page_positive o (s : cells) :
  count_nonneg (Settle 0 o) → page_positive s →
  page_positive (fetchBooks_resume o s).
Proof.
  intros Ho [Hp Hn]. resume_cases o; try (split; cbn; lia).
  split; cbn; [lia|]. destruct n as [n|]; cbn in *; [|lia].
  destruct (Z.eqb_spec n 0); lia.
Qed.

Lemma step_page_positive (st : App) e :
  count_nonneg e → page_positive st → page_positive (step st e).
Proof.
  intros He H. destruct e as [value| | | |ms|c o]; cbn [step].
  - by apply rerender_page_positive.
  - by apply rerender_page_positive.
  - destruct (prev_disabled st); [done|].
    apply rerender_page_positive. split; [apply onPrev_page|apply H].
  - destruct (next_disabled st); [done|].
    apply rerender_page_positive. split; [by apply onNext_page|apply H].
  - apply (run_timers_preserves (λ s, page_positive s)); [|done].
    intros id t s Hs. by apply (rerender_page_positive (fire id t s)).
  - destruct (controllers st !! c) as [[[] [u|] []]|]; try done.
    apply rerender_page_positive. cbn.
    by apply resume_page_positive.
Qed.

(** ** A request settles *)

Lemma arr_or_default {A} (x : option (list A)) : arr_or x [] = default [] x.
Proof. by destruct x. Qed.

Lemma step_Settle st c o :
  step st (Settle c o) =
  match controllers st !! c with
  | Some (Controller false (Some _) false) => rerender (resume c o st)
  | _ => st
  end.
Proof. reflexivity. Qed.

(** Once the request in flight settles, the cells are those [fetchBooks]
    leaves, and no effect is due. *)
Lemma settle_in_flight_state st c o :
  stable st = true → in_flight st c →
  step st (Settle c o) = resume c o st.
Proof.
  intros Hs [u Hu]. rewrite step_Settle, Hu.
  rewrite rerender_id; [done|]. by rewrite stable_resume.
Qed.

Lemma settle_in_flight st c o :
  stable st = true → in_flight st c →
  hooks (step st (Settle c o)) = fetchBooks_resume o st.
Proof. intros Hs Hc. by rewrite settle_in_flight_state. Qed.

(** Nothing happens when a request settles that is not in flight: its
    signal was aborted, and it has rejected already, or it has settled
    before. *)
Lemma settle_not_in_flight st c o :
  ¬ in_flight st c → step st (Settle c o) = st.
Proof.
  intros Hc. rewrite step_Settle.
  destruct (controllers st !! c) as [[[] [u|] []]|] eqn:Hk; try done.
  destruct Hc. by exists u.
Qed.

Lemma request_failure_try o err s :
  request_failure o err → fetchBooks_try o s = inl err.
Proof.
  intros [e|status body Hs|status msg Hs|status Hs]; cbn; [done|..].
  - destruct (ok status) eqn:Hok; [|done]. by apply ok_spec in Hok.
  - apply ok_spec in Hs. by rewrite Hs.
  - apply ok_spec in Hs. by rewrite Hs.
Qed.

Lemma resume_failure o err s :
  request_failure o err → name err ≠ "AbortError" →
  fetchBooks_resume o s = setLoading false (setError (Some (message err)) s).
Proof.
  intros Hf Hn. unfold fetchBooks_resume, fetchBooks_catch.
  rewrite (request_failure_try _ _ _ Hf).
  apply String.eqb_neq in Hn. by rewrite Hn.
Qed.

Lemma resume_success status docs n s :
  200 ≤ status ≤ 299 →
  fetchBooks_resume (Response status (inr (DObj docs n))) s
  = setLoading false (setNumFound (default 0 n) (setResults (default [] docs) s)).
Proof.
  intros Hs. apply ok_spec in Hs. unfold fetchBooks_resume, fetchBooks_try.
  by rewrite Hs, num_or_default, arr_or_default.
Qed.

(** ** The fetch effect runs again *)

Lemma fetch_effect_controllers d p st :
  controllers (fetch_effect d p st) = controllers st ++ new_controller d p
  ∧ cleanup (fetch_effect d p st)
    = (if falsy d then None else Some (length (controllers st)))
  ∧ hooks (fetch_effect d p st) = fetch_effect_cells d st.
Proof.
  unfold fetch_effect, new_controller, fetch_effect_cells, fetchBooks, fetch.
  destruct (falsy d); [by rewrite app_nil_r|].
  destruct (encodeURIComponent d) as [q|]; cbn; [|done].
  rewrite <- (Nat.add_0_r (length (controllers st))).
  by rewrite alter_app_r.
Qed.

Lemma new_controller_in_flight d p k :
  k ∈ new_controller d p → aborted k = false ∧ settled k = false.
Proof.
  unfold new_controller. destruct (falsy d); [by intros ?%elem_of_nil|].
  by intros ->%list_elem_of_singleton.
Qed.

Lemma supersede_length st :
  length (controllers (supersede st)) = length (controllers st).
Proof.
  unfold supersede. rewrite rejected_length. unfold fetch_cleanup.
  destruct (cleanup st); cbn; by rewrite ?length_alter.
Qed.

(** One run of the fetch effect after its cleanup, and the rejection of
    the request that the cleanup aborted: [A] is the state in which the
    effect runs, after the cleanups and the effects that come before
    it. *)
Lemma refetch st A d p :
  controllers A = controllers (fetch_cleanup st) →
  controllers (rejected (cleanup st) (fetch_effect d p A))
  = controllers (supersede st) ++ new_controller d p
  ∧ hooks (rejected (cleanup st) (fetch_effect d p A))
    = (if supersedes st then setLoading false (fetch_effect_cells d A)
       else fetch_effect_cells d A)
  ∧ cleanup (rejected (cleanup st) (fetch_effect d p A))
    = (if falsy d then None else Some (length (controllers st))).
Proof.
  intros HA.
  destruct (fetch_effect_controllers d p A) as (Hk & Hc & Hh).
  assert (length (controllers A) = length (controllers st)) as Hlen.
  { rewrite HA. unfold fetch_cleanup.
    destruct (cleanup st); cbn; by rewrite ?length_alter. }
  unfold supersede, supersedes, rejected.
  destruct (cleanup st) as [c|] eqn:Hcs; [|by rewrite Hk, HA, Hc, Hlen].
  rewrite Hk, HA. unfold fetch_cleanup. rewrite Hcs.
  cbn [controllers with_controllers]. rewrite list_lookup_alter_eq.
  assert ((alter abort c (controllers st) ++ new_controller d p) !! c
          = abort <$> controllers st !! c
          ∨ controllers st !! c = None
            ∧ ∃ k, (alter abort c (controllers st) ++ new_controller d p) !! c
                   = Some k ∧ aborted k = false) as Hlook.
  { destruct (decide (c < length (controllers st))%nat) as [Hlt|Hge].
    - left. rewrite lookup_app_l by (by rewrite length_alter).
      apply list_lookup_alter_eq.
    - rewrite (lookup_ge_None_2 (controllers st) c) by lia.
      destruct ((alter abort c (controllers st) ++ new_controller d p) !! c)
        as [k|] eqn:Hk'; [|by left].
      right. split; [done|]. exists k. split; [done|].
      apply lookup_app_Some in Hk' as [Hk'|[_ Hk']].
      { apply lookup_lt_Some in Hk'. rewrite length_alter in Hk'. lia. }
      by apply list_elem_of_lookup_2, new_controller_in_flight in Hk' as [? _]. }
  destruct Hlook as [->|(-> & k & -> & Hab)].
  - destruct (controllers st !! c) as [[ab [u|] []]|] eqn:Hlk; cbn;
      unfold resume; cbn [controllers update with_controllers hooks];
      rewrite ?Hk, ?HA, ?Hh; unfold fetch_cleanup; rewrite ?Hcs;
      cbn [controllers with_controllers];
      try (rewrite alter_app_l
             by (rewrite length_alter; by apply lookup_lt_Some in Hlk));
      by rewrite ?Hc, ?Hlen.
  - destruct k as [[] ? ?]; [done|]. cbn. rewrite Hk, HA, Hh, Hc, Hlen.
    unfold fetch_cleanup. by rewrite Hcs.
Qed.

Lemma fetch_effect_cells_setPage d x (s : cells) :
  loading (fetch_effect_cells d (setPage x s)) = loading (fetch_effect_cells d s)
  ∧ error (fetch_effect_cells d (setPage x s)) = error (fetch_effect_cells d s)
  ∧ results (fetch_effect_cells d (setPage x s)) = results (fetch_effect_cells d s)
  ∧ numFound (fetch_effect_cells d (setPage x s))
    = numFound (fetch_effect_cells d s).
Proof.
  unfold fetch_effect_cells. destruct (falsy d); [done|].
  by destruct (encodeURIComponent d).
Qed.

(** The requests after a render in which the fetch effect is due. *)
Lemma commit_refetch st :
  changed (fetch_deps st) (debouncedQuery st, page st) = true →
  controllers (commit st)
  = controllers (supersede st) ++ new_controller (debouncedQuery st) (page st)
  ∧ cleanup (commit st)
    = (if falsy (debouncedQuery st) then None
       else Some (length (controllers st)))
  ∧ loading (commit st)
    = (if supersedes st then false
       else loading (fetch_effect_cells (debouncedQuery st) st))
  ∧ error (commit st) = error (fetch_effect_cells (debouncedQuery st) st)
  ∧ results (commit st) = results (fetch_effect_cells (debouncedQuery st) st)
  ∧ numFound (commit st) = numFound (fetch_effect_cells (debouncedQuery st) st).
Proof.
  intros Hf. unfold commit. rewrite Hf.
  destruct (useDebounced_cleanup_spec st) as [ts Hts].
  match goal with |- context [fetch_effect ?d ?p ?A] =>
    destruct (refetch st A d p) as (Hk & Hh & Hc) end.
  { rewrite Hts.
    destruct (changed (debounce_deps st) _), (changed (reset_deps st) _); cbn;
      unfold fetch_cleanup; cbn; by destruct (cleanup st). }
  split; [exact Hk|]. split; [exact Hc|]. rewrite Hh, Hts.
  destruct (changed (debounce_deps st) _), (changed (reset_deps st) _);
    cbn [hooks useDebounced_effect reset_effect with_timeouts];
    rewrite ?fetch_cleanup_cells; cbn [hooks with_timeouts];
    destruct (supersedes st); cbn [loading error results numFound setLoading];
    repeat split;
    solve [ reflexivity | apply fetch_effect_cells_setPage ].
Qed.

(** The requests after a render in which the fetch effect is not due. *)
Lemma commit_no_fetch st :
  changed (fetch_deps st) (debouncedQuery st, page st) = false →
  controllers (commit st) = controllers st ∧ cleanup (commit st) = cleanup st
  ∧ loading (commit st) = loading st ∧ error (commit st) = error st
  ∧ results (commit st) = results st ∧ numFound (commit st) = numFound st.
Proof.
  intros Hf. unfold commit. rewrite Hf.
  destruct (useDebounced_cleanup_spec st) as [ts ->].
  by destruct (changed (debounce_deps st) _), (changed (reset_deps st) _).
Qed.

Lemma url_alter_abort c cs : map url (alter abort c cs) = map url cs.
Proof.
  revert c. induction cs as [|k cs IH]; intros [|c]; cbn; [done..|].
  f_equal. apply IH.
Qed.

Lemma url_alter_settle c cs : map url (alter settle c cs) = map url cs.
Proof.
  revert c. induction cs as [|k cs IH]; intros [|c]; cbn; [done..|].
  f_equal. apply IH.
Qed.

Lemma url_fetch_cleanup st :
  map url (controllers (fetch_cleanup st)) = map url (controllers st).
Proof.
  unfold fetch_cleanup. destruct (cleanup st); [|done]. apply url_alter_abort.
Qed.

Lemma url_rejected c st :
  map url (controllers (rejected c st)) = map url (controllers st).
Proof.
  destruct (rejected_cases c st) as [->|(k & u & _ & _ & ->)]; [done|].
  apply url_alter_settle.
Qed.

Lemma url_supersede st :
  map url (controllers (supersede st)) = map url (controllers st).
Proof. unfold supersede. by rewrite url_rejected, url_fetch_cleanup. Qed.

Lemma supersede_idle st : single_request st → idle (supersede st).
Proof.
  intros HJ c Hc. apply rejected_in_flight in Hc.
  by apply (fetch_cleanup_idle st HJ c).
Qed.

(** The controllers other than the one the cleanup holds are left alone. *)
Lemma supersede_other st c :
  cleanup st ≠ Some c →
  controllers (supersede st) !! c = controllers st !! c.
Proof.
  intros Hc. unfold supersede.
  destruct (rejected_cases (cleanup st) (fetch_cleanup st))
    as [->|(k & u & Hk & _ & ->)].
  - unfold fetch_cleanup. destruct (cleanup st) as [k|]; [|done]. cbn.
    rewrite list_lookup_alter_ne; [done|congruence].
  - cbn. rewrite list_lookup_alter_ne by congruence.
    unfold fetch_cleanup. rewrite Hk. cbn.
    rewrite list_lookup_alter_ne; [done|congruence].
Qed.

(** The request in flight is aborted and has rejected. *)
Lemma supersede_in_flight st c u :
  cleanup st = Some c →
  controllers st !! c = Some (Controller false (Some u) false) →
  supersedes st = true
  ∧ controllers (supersede st) !! c = Some (Controller true (Some u) true).
Proof.
  intros Hc Hu. unfold supersedes, supersede, fetch_cleanup, rejected.
  rewrite Hc, Hu. split; [done|]. cbn.
  rewrite list_lookup_alter_eq, Hu. cbn.
  by rewrite list_lookup_alter_eq, list_lookup_alter_eq, Hu.
Qed.


(** ** Invariants of the requests *)

Lemma supersede_not_pending st c :
  cleanup st = Some c → ¬ pending (supersede st) c.
Proof.
  intros Hc (ab & u & Hu). revert Hu.
  unfold supersede, fetch_cleanup, rejected. rewrite Hc. cbn.
  rewrite list_lookup_alter_eq.
  destruct (controllers st !! c) as [[ab' [u'|] []]|] eqn:Hk; cbn;
    rewrite !list_lookup_alter_eq, Hk; by cbn.
Qed.

Lemma new_controller_lookup d p u i :
  new_controller d p !! i = Some (Controller false (Some u) false) →
  i = 0%nat ∧ d ≠ []
  ∧ ∃ q, encodeURIComponent d = Some q ∧ u = search_url q ((p - 1) * perPage).
Proof.
  unfold new_controller. destruct d as [|c d]; [by cbn|].
  cbn [falsy]. destruct i as [|i]; [|by rewrite lookup_cons, lookup_nil].
  cbn [lookup list_lookup].
  destruct (encodeURIComponent (c :: d)) as [q|]; [|done]. cbn [fmap option_fmap option_map].
  intros [= <-]. split; [done|]. split; [done|]. by exists q.
Qed.

(** One render preserves: the pending requests are in flight, the request
    in flight is the one of the last run of the fetch effect, and
    [loading] is set only while a request is in flight. *)
Lemma commit_requests st :
  single_request st → aborts_delivered st → request_current st →
  loading_in_flight st →
  aborts_delivered (commit st) ∧ request_current (commit st)
  ∧ loading_in_flight (commit st).
Proof.
  intros HJ HA HR HL. pose proof HJ as [Hone Hlt].
  destruct (commit_deps st) as (_ & _ & _ & _ & _ & Hfd).
  destruct (changed (fetch_deps st) (debouncedQuery st, page st)) eqn:Hf.
  - destruct (commit_refetch st Hf) as (Hk & Hc & Hl & _).
    assert (∀ c k, controllers (commit st) !! c = Some k →
              controllers (supersede st) !! c = Some k
              ∨ c = length (controllers st)
                ∧ new_controller (debouncedQuery st) (page st) !! 0%nat = Some k)
      as Hlook.
    { intros c k. rewrite Hk. intros [?|[Hge Hn]]%lookup_app_Some; [by left|].
      right. rewrite supersede_length in Hge, Hn.
      destruct (c - length (controllers st))%nat as [|i] eqn:Hi.
      - split; [lia|done].
      - unfold new_controller in Hn. by destruct (falsy _). }
    assert (∀ c, pending (supersede st) c → False) as Hnone.
    { intros c Hp. destruct (decide (cleanup st = Some c)) as [Hcl|Hcl].
      - by apply (supersede_not_pending st c).
      - destruct Hp as (ab & u & Hu). rewrite supersede_other in Hu by done.
        destruct (Hone c) as [? _]; [|done]. apply HA. by exists ab, u. }
    split; [|split].
    + intros c (ab & u & Hu). apply Hlook in Hu as [Hu|[-> Hu]].
      * destruct (Hnone c). by exists ab, u.
      * exists u. rewrite Hk, lookup_app_r, supersede_length, Nat.sub_diag
          by (by rewrite supersede_length).
        pose proof (list_elem_of_lookup_2 _ _ _ Hu) as Hin.
        apply new_controller_in_flight in Hin as [Hab _]. cbn in Hab.
        by rewrite Hu, Hab.
    + intros c u Hu. apply Hlook in Hu as [Hu|[-> Hu]].
      * destruct (Hnone c). by exists false, u.
      * apply new_controller_lookup in Hu as (_ & Hd & q & Hq & ->).
        by exists (debouncedQuery st), (page st), q.
    + intros Hload. rewrite Hl in Hload.
      destruct (supersedes st) eqn:Hs; [done|].
      unfold fetch_effect_cells in Hload.
      destruct (falsy (debouncedQuery st)) eqn:Hd.
      * destruct (HL Hload) as [c [u Hu]].
        destruct (Hone c) as [Hcl _]; [by exists u|].
        destruct (supersede_in_flight st c u Hcl Hu) as [Hs' _]. congruence.
      * destruct (encodeURIComponent (debouncedQuery st)) as [q|] eqn:Hq;
          [|done].
        exists (length (controllers st)), (search_url q ((page st - 1) * perPage)).
        rewrite Hk, lookup_app_r, supersede_length, Nat.sub_diag
          by (by rewrite supersede_length).
        unfold new_controller. by rewrite Hd, Hq.
  - destruct (commit_no_fetch st Hf) as (Hk & Hc & Hl & _).
    apply changed_false in Hf.
    split; [|split].
    + intros c. unfold pending, in_flight. rewrite Hk. apply HA.
    + intros c u. rewrite Hk, Hfd, <- Hf. apply HR.
    + unfold loading_in_flight, in_flight. rewrite Hl, Hk. apply HL.
Qed.

Lemma rerender_requests st :
  single_request st → aborts_delivered st → request_current st →
  loading_in_flight st →
  aborts_delivered (rerender st) ∧ request_current (rerender st)
  ∧ loading_in_flight (rerender st).
Proof.
  intros HJ HA HR HL. unfold rerender, flush.
  destruct (stable st); [done|].
  destruct (commit_requests st) as (HA1 & HR1 & HL1); [done..|].
  pose proof (commit_single st HJ) as HJ1.
  destruct (stable (commit st)); [done|].
  destruct (commit_requests (commit st)) as (HA2 & HR2 & HL2); [done..|].
  by destruct (stable (commit (commit st))).
Qed.

Lemma reachable_requests st :
  reachable st →
  aborts_delivered st ∧ request_current st ∧ loading_in_flight st.
Proof.
  induction 1 as [|st e Hr (HA & HR & HL)].
  { apply rerender_requests.
    - apply idle_single_request; [|done]. by intros c [u Hu].
    - by intros c (ab & u & Hu).
    - by intros c u Hu.
    - by intros Hl. }
  pose proof (reachable_single _ Hr) as HJ.
  assert (∀ f : cells → cells,
            error (f st) = error st → loading (f st) = loading st →
            aborts_delivered (rerender (update f st))
            ∧ request_current (rerender (update f st))
            ∧ loading_in_flight (rerender (update f st))) as Hup.
  { intros f He Hl. apply rerender_requests; try done.
    - apply (same_requests_single st); [|done]. by split; [|split].
    - unfold loading_in_flight. cbn. by rewrite Hl. }
  destruct e as [value| | | |ms|c o]; cbn [step].
  - by apply Hup.
  - by apply Hup.
  - destruct (prev_disabled st); [done|]. by apply Hup.
  - destruct (next_disabled st); [done|]. by apply Hup.
  - apply (run_timers_preserves
             (λ s, single_request s ∧ aborts_delivered s ∧ request_current s
                   ∧ loading_in_flight s) (length (timeouts st)) (now st + ms) st);
      [|done].
    intros id t s (HJs & HAs & HRs & HLs).
    split; [apply rerender_single; by apply (same_requests_single s)|].
    apply rerender_requests; try done.
  - destruct (controllers st !! c) as [[[] [u|] []]|] eqn:Hc; try done.
    destruct HJ as [Hone Hlt].
    assert (idle (resume c o st)) as Hidle.
    { intros c' [u' Hu']. cbn in Hu'.
      destruct (decide (c = c')) as [->|Hne].
      - rewrite list_lookup_alter_eq, Hc in Hu'. discriminate.
      - rewrite list_lookup_alter_ne in Hu' by done.
        destruct (Hone c') as [Hk _]; [by exists u'|].
        destruct (Hone c) as [Hk' _]; [by exists u|congruence]. }
    apply rerender_requests.
    + by apply (settle_single st c u).
    + intros c' (ab & u' & Hu'). cbn in Hu'.
      destruct (decide (c = c')) as [->|Hne].
      * rewrite list_lookup_alter_eq, Hc in Hu'. discriminate.
      * rewrite list_lookup_alter_ne in Hu' by done.
        destruct (Hidle c'). destruct (HA c') as [u'' Hu'']; [by exists ab, u'|].
        exists u''. cbn. by rewrite list_lookup_alter_ne.
    + intros c' u' Hu'. destruct (Hidle c'). by exists u'.
    + intros Hl. exfalso. revert Hl. cbn. unfold fetchBooks_resume.
      by cbn.
Qed.

(** ** The timeouts *)

Lemma next_timeout_Some ts i id t :
  next_timeout ts i = Some (id, t) →
  ∃ j, id = (i + j)%nat ∧ ts !! j = Some t ∧ live t = true.
Proof.
  revert i. induction ts as [|t0 ts IH]; intros i; [done|]. cbn [next_timeout].
  assert (next_timeout ts (S i) = Some (id, t) →
          ∃ j, id = (i + j)%nat ∧ (t0 :: ts) !! j = Some t ∧ live t = true)
    as Hlater.
  { intros (j & -> & Hj & Hl)%IH. exists (S j). split; [lia|done]. }
  destruct (live t0) eqn:Hl0; [|done].
  destruct (next_timeout ts (S i)) as [[id' t']|].
  - destruct (due t0 <=? due t')%nat; [|done].
    intros [= <- <-]. exists 0%nat. split; [lia|done].
  - intros [= <- <-]. exists 0%nat. split; [lia|done].
Qed.

Lemma next_timeout_None ts i :
  next_timeout ts i = None ↔ ∀ j t, ts !! j = Some t → live t = false.
Proof.
  revert i. induction ts as [|t0 ts IH]; intros i; [done|]. cbn [next_timeout].
  split.
  - intros Hn. destruct (live t0) eqn:Hl0.
    { by destruct (next_timeout ts (S i)) as [[? t']|];
        [destruct (due t0 <=? due t')%nat|]. }
    intros [|j] t; [by intros [= <-]|]. cbn. by apply (IH (S i)).
  - intros Hall. rewrite (Hall 0%nat t0) by done.
    apply IH. intros j t. apply (Hall (S j)).
Qed.

(** The only timeout still to run is the one that runs next. *)
Lemma next_timeout_unique ts i j t :
  ts !! j = Some t → live t = true →
  (∀ j' t', ts !! j' = Some t' → live t' = true → j' = j) →
  next_timeout ts i = Some ((i + j)%nat, t).
Proof.
  revert i j. induction ts as [|t0 ts IH]; intros i j Hj Hl Hall; [done|].
  cbn [next_timeout]. destruct j as [|j].
  - injection Hj as ->. rewrite Hl.
    assert (next_timeout ts (S i) = None) as ->.
    { apply next_timeout_None. intros j' t' Hj'.
      apply not_true_is_false. intros Hl'.
      by specialize (Hall (S j') t' Hj' Hl'). }
    do 2 f_equal. lia.
  - assert (live t0 = false) as ->.
    { apply not_true_is_false. intros Hl0.
      by specialize (Hall 0%nat t0 eq_refl Hl0). }
    rewrite (IH (S i) j); [do 2 f_equal; lia|done..|].
    intros j' t' Hj' Hl'. specialize (Hall (S j') t' Hj' Hl'). lia.
Qed.

(** The timeout that runs next where [timer_current] holds: there is
    none, or it is the one of the cleanup. *)
Lemma timer_current_next st :
  timer_current st →
  match next_timeout (timeouts st) 0 with
  | Some (id, t) =>
      timer_id st = Some id ∧ timeouts st !! id = Some t ∧ live t = true
      ∧ captured t = query st ∧ (now st < due t ≤ now st + delay)%nat
  | None =>
      (∀ id t, timeouts st !! id = Some t → live t = false)
      ∧ debouncedQuery st = query st
  end.
Proof.
  intros [Hlive Hnone].
  destruct (next_timeout (timeouts st) 0) as [[id t]|] eqn:Hn.
  - apply next_timeout_Some in Hn as (j & -> & Hj & Hl).
    destruct (Hlive j t Hj Hl) as (? & ? & ?). auto.
  - pose proof (proj1 (next_timeout_None _ _) Hn) as Hall. auto.
Qed.

Lemma timer_Some st d value :
  timer st = Some (d, value) ↔
  ∃ id t, next_timeout (timeouts st) 0 = Some (id, t)
          ∧ due t = d ∧ captured t = value.
Proof.
  unfold timer. destruct (next_timeout (timeouts st) 0) as [[id t]|]; cbn.
  - split; [intros [= <- <-]; by exists id, t|].
    by intros (id' & t' & [= <- <-] & <- & <-).
  - split; [done|]. by intros (? & ? & ? & _).
Qed.

Lemma timer_None st :
  timer st = None ↔ ∀ id t, timeouts st !! id = Some t → live t = false.
Proof.
  unfold timer. rewrite <- (next_timeout_None (timeouts st) 0).
  by destruct (next_timeout (timeouts st) 0).
Qed.

Lemma run_timers_none fuel until st :
  next_timeout (timeouts st) 0 = None → run_timers fuel until st = st.
Proof. intros Hn. destruct fuel; [done|]. cbn [run_timers]. by rewrite Hn. Qed.

Lemma alter_clear_dead (ts : list timeout) (id j : nat) t :
  (∀ j' t', ts !! j' = Some t' → live t' = true → j' = id) →
  alter clear id ts !! j = Some t → live t = false.
Proof.
  intros Hall Hj. destruct (decide (id = j)) as [->|Hne].
  - rewrite list_lookup_alter_eq in Hj.
    destruct (ts !! j) as [t'|]; [|done]. by injection Hj as <-.
  - rewrite list_lookup_alter_ne in Hj by done.
    apply not_true_is_false. intros Hl. by specialize (Hall j t Hj Hl).
Qed.

(** What time does to the component where [timer_current] holds: the one
    timeout that may be due runs, and no other. *)
Lemma wait_spec st ms :
  stable st = true → timer_current st →
  step st (Wait ms) =
  match next_timeout (timeouts st) 0 with
  | Some (id, t) =>
      if bool_decide (due t ≤ now st + ms)%nat
      then at_time (now st + ms) (rerender (fire id t st))
      else at_time (now st + ms) st
  | None => at_time (now st + ms) st
  end.
Proof.
  intros Hs Ht. pose proof (timer_current_next st Ht) as Hnext.
  cbn [step].
  destruct (next_timeout (timeouts st) 0) as [[id t]|] eqn:Hn;
    [|by rewrite run_timers_none].
  destruct Hnext as (Hid & Hlook & Hl & Hv & Hdue).
  destruct (length (timeouts st)) as [|fuel] eqn:Hlen.
  { apply lookup_lt_Some in Hlook. lia. }
  cbn [run_timers]. rewrite Hn. case_bool_decide; [|done].
  rewrite run_timers_none; [done|].
  apply stable_spec in Hs as (Hd & _).
  rewrite (proj1 (rerender_timeouts (fire id t st) Hd)). cbn [timeouts fire].
  apply next_timeout_None. intros j t0.
  apply (alter_clear_dead (timeouts st) id j t0).
  intros j' t' Hj' Hl'. destruct Ht as [Hlive _].
  destruct (Hlive j' t' Hj' Hl') as [Hid' _]. congruence.
Qed.

Lemma useDebounced_cleanup_length st :
  length (timeouts (useDebounced_cleanup st)) = length (timeouts st).
Proof.
  unfold useDebounced_cleanup, clearTimeout.
  destruct (timer_id st); cbn; by rewrite ?length_alter.
Qed.

(** A render in which the effect of [useDebounced] is due: the timeout of
    the last run is cleared and a new one is made. *)
Lemma commit_timeouts_due st :
  changed (debounce_deps st) (query st) = true →
  timeouts (commit st)
  = timeouts (useDebounced_cleanup st)
    ++ [Timeout (now st + delay) (query st) true]
  ∧ timer_id (commit st) = Some (length (timeouts st)).
Proof.
  intros Hd. unfold commit. rewrite Hd.
  rewrite <- (useDebounced_cleanup_length st).
  destruct (changed (reset_deps st) _), (changed (fetch_deps st) _);
    try match goal with
      | |- context [rejected ?c ?s] =>
          destruct (rejected_spec c s) as (l & cs & ->)
      end;
    cbn [update with_controllers timeouts timer_id];
    rewrite ?(frame_timeouts _ _ (fetch_effect_frame _ _ _)),
            ?(frame_timer_id _ _ (fetch_effect_frame _ _ _));
    cbn [reset_effect useDebounced_effect timeouts timer_id now];
    rewrite ?(frame_timeouts _ _ (fetch_cleanup_frame _)),
            ?(frame_now _ _ (fetch_cleanup_frame _));
    destruct (useDebounced_cleanup_spec st) as [ts ->]; done.
Qed.

Lemma useDebounced_cleanup_dead st j t :
  one_timeout st →
  timeouts (useDebounced_cleanup st) !! j = Some t → live t = false.
Proof.
  intros Hone. unfold useDebounced_cleanup, clearTimeout.
  destruct (timer_id st) as [id|] eqn:Hid; cbn.
  - apply alter_clear_dead. intros j' t' Hj' Hl'.
    specialize (Hone j' t' Hj' Hl'). congruence.
  - intros Hj. apply not_true_is_false. intros Hl.
    specialize (Hone j t Hj Hl). congruence.
Qed.

Lemma commit_timer_due st :
  one_timeout st → changed (debounce_deps st) (query st) = true →
  timer_current (commit st).
Proof.
  intros Hone Hd. destruct (commit_timeouts_due st Hd) as [Hts Hid].
  destruct (commit_deps st) as (Hq & _). destruct (commit_clock st) as [Hn _].
  split.
  - intros j t. rewrite Hts, Hid, Hq, Hn.
    intros [Hj|[Hge Hj]]%lookup_app_Some Hl.
    { by rewrite (useDebounced_cleanup_dead st j t Hone Hj) in Hl. }
    rewrite useDebounced_cleanup_length in Hge, Hj.
    destruct (j - length (timeouts st))%nat as [|i] eqn:Hi; [|done].
    injection Hj as <-. cbn. unfold delay.
    split; [f_equal; lia|]. split; [done|lia].
  - intros Hall. exfalso.
    specialize (Hall (length (timeouts st))
                  (Timeout (now st + delay) (query st) true)).
    rewrite Hts, lookup_app_r, useDebounced_cleanup_length, Nat.sub_diag in Hall
      by (by rewrite useDebounced_cleanup_length).
    by specialize (Hall eq_refl).
Qed.

Lemma commit_timer_keep st :
  timer_current st → debounce_deps st = Some (query st) →
  timer_current (commit st).
Proof.
  intros Ht Hd. destruct (commit_timeouts st Hd) as [Hts Hid].
  destruct (commit_deps st) as (Hq & Hdq & _). destruct (commit_clock st) as [Hn _].
  unfold timer_current. by rewrite Hts, Hid, Hq, Hdq, Hn.
Qed.

Lemma rerender_timer_keep st :
  timer_current st → debounce_deps st = Some (query st) →
  timer_current (rerender st).
Proof.
  intros Ht Hd. unfold rerender, flush.
  assert (∀ s, debounce_deps s = Some (query s) →
               debounce_deps (commit s) = Some (query (commit s))) as Hkeep.
  { intros s Hs. destruct (commit_deps s) as (Hq & _ & _ & Hdd & _).
    by rewrite Hq, Hdd. }
  repeat destruct (stable _); auto using commit_timer_keep.
Qed.

Lemma rerender_timer_due st :
  one_timeout st → debounce_deps st ≠ Some (query st) →
  timer_current (rerender st).
Proof.
  intros Hone Hd. unfold rerender, flush.
  assert (stable st = false) as ->.
  { apply not_true_is_false. by intros (? & _)%stable_spec. }
  assert (timer_current (commit st)) as Ht
    by (by apply commit_timer_due, changed_true).
  assert (debounce_deps (commit st) = Some (query (commit st))) as Hd'.
  { destruct (commit_deps st) as (Hq & _ & _ & Hdd & _). by rewrite Hq, Hdd. }
  repeat destruct (stable _); auto using commit_timer_keep.
Qed.

(** Setting the raw query to the value it has changes nothing. *)
Lemma change_same st : stable st = true → step st (Change (query st)) = st.
Proof.
  intros Hs. cbn [step].
  replace (update (setQuery (query st)) st) with st by (by destruct st as [[]]).
  by apply rerender_id.
Qed.

Lemma reachable_timer st : reachable st → timer_current st.
Proof.
  induction 1 as [|st e Hr IH].
  { apply rerender_timer_due; [|done]. by intros id t Hid. }
  pose proof (reachable_stable _ Hr) as Hs.
  assert (debounce_deps st = Some (query st)) as Hd
    by (by apply stable_spec in Hs as (? & _)).
  assert (∀ f : cells → cells,
            query (f st) = query st → debouncedQuery (f st) = debouncedQuery st →
            timer_current (rerender (update f st))) as Hup.
  { intros f Hq Hdq. apply rerender_timer_keep; [|cbn; congruence].
    unfold timer_current. cbn. rewrite Hq, Hdq. exact IH. }
  assert (∀ value, timer_current (step st (Change value))) as Hchange.
  { intros value.
    destruct (decide (value = query st)) as [->|Hv]; [by rewrite change_same|].
    apply rerender_timer_due; [|cbn; congruence].
    intros id t Hid Hl. by destruct (proj1 IH id t Hid Hl). }
  destruct e as [value| | | |ms|c o].
  - apply Hchange.
  - apply (Hchange []).
  - cbn [step]. destruct (prev_disabled st); [done|]. by apply Hup.
  - cbn [step]. destruct (next_disabled st); [done|]. by apply Hup.
  - rewrite wait_spec by done.
    pose proof (timer_current_next st IH) as Hnext.
    destruct (next_timeout (timeouts st) 0) as [[id t]|] eqn:Hn.
    + destruct Hnext as (Hid & Hlook & Hl & Hv & Hdue).
      case_bool_decide as Hfire.
      * destruct (rerender_timeouts (fire id t st) Hd) as [Hts _].
        destruct (rerender_cells (fire id t st)) as (Hq & Hdq & _).
        split.
        -- intros j t'. cbn [timeouts at_time]. rewrite Hts. cbn [timeouts fire].
           intros Hj Hl'. exfalso.
           rewrite (alter_clear_dead (timeouts st) id j t') in Hl'; [done| |done].
           intros j' t'' Hj' Hl''. destruct (proj1 IH j' t'' Hj' Hl'') as [? _].
           congruence.
        -- intros _. cbn [hooks at_time]. rewrite Hq, Hdq. cbn. exact Hv.
      * destruct IH as [Hlive Hnone]. split; [|exact Hnone].
        intros j t' Hj Hl'. destruct (Hlive j t' Hj Hl') as (? & ? & ?).
        assert (j = id) as -> by congruence.
        assert (t' = t) as -> by (cbn in Hj; congruence).
        cbn. split; [done|]. split; [done|lia].
    + destruct IH as [Hlive Hnone]. destruct Hnext as [Hall _].
      split; [|exact Hnone]. intros j t' Hj Hl'. cbn in Hj.
      by rewrite (Hall j t' Hj) in Hl'.
  - rewrite step_Settle.
    destruct (controllers st !! c) as [[[] [u|] []]|]; try done.
    rewrite rerender_id by (by rewrite stable_resume).
    assert (query (fetchBooks_resume o st) = query st
            ∧ debouncedQuery (fetchBooks_resume o st) = debouncedQuery st)
      as [Hq Hdq] by (resume_cases o; done).
    unfold timer_current, resume.
    cbn [hooks update with_controllers timeouts timer_id now].
    rewrite Hq, Hdq. exact IH.
Qed.

(** ** The debounce timer *)

(** A render in which only the effect of [useDebounced] is due. *)
Lemma commit_debounce st :
  debounce_deps st ≠ Some (query st) →
  reset_deps st = Some (debouncedQuery st) →
  fetch_deps st = Some (debouncedQuery st, page st) →
  commit st = useDebounced_effect (query st) (useDebounced_cleanup st).
Proof.
  intros Hd Hr Hf. unfold commit.
  rewrite Hr, Hf, !changed_Some.
  unfold changed. by rewrite bool_decide_eq_true_2.
Qed.

(** A keystroke that changes the input, in full: the timeout of the
    keystroke before is cleared and a new one is made. *)
Lemma keystroke_state st value :
  stable st = true → value ≠ query st →
  step st (Change value)
  = useDebounced_effect value
      (useDebounced_cleanup (update (setQuery value) st)).
Proof.
  intros Hs Hv. apply stable_spec in Hs as (Hd & Hr & Hf).
  cbn [step]. set (s0 := update (setQuery value) st).
  assert (commit s0 = useDebounced_effect value (useDebounced_cleanup s0)) as Hc.
  { apply (commit_debounce s0); [|done..]. cbn. congruence. }
  unfold rerender, flush.
  assert (stable s0 = false) as ->.
  { unfold stable, changed. cbn. rewrite Hd.
    rewrite bool_decide_eq_true_2; [done|congruence]. }
  rewrite Hc.
  assert (stable (useDebounced_effect value (useDebounced_cleanup s0)) = true)
    as ->; [|done].
  destruct (useDebounced_cleanup_spec s0) as [ts ->].
  apply stable_spec. cbn. auto.
Qed.

(** A keystroke that changes the input re-arms the timer and does nothing
    else: it makes no request and writes no other cell. *)
Lemma keystroke st value :
  reachable st → value ≠ query st →
  timer (step st (Change value)) = Some ((now st + delay)%nat, value)
  ∧ now (step st (Change value)) = now st
  ∧ emitted (step st (Change value)) = emitted st
  ∧ controllers (step st (Change value)) = controllers st
  ∧ hooks (step st (Change value)) = setQuery value st.
Proof.
  intros Hr Hv. pose proof (reachable_stable _ Hr) as Hs.
  pose proof (reachable_timer _ Hr) as [Hlive _].
  rewrite keystroke_state by done.
  set (s0 := update (setQuery value) st).
  assert (one_timeout s0) as Hone.
  { intros id t Hid Hl. by destruct (Hlive id t Hid Hl). }
  split.
  - apply timer_Some.
    exists (length (timeouts st)), (Timeout (now st + delay) value true).
    split; [|done]. cbn [timeouts useDebounced_effect].
    change (length (timeouts st)) with (0 + length (timeouts s0))%nat.
    rewrite <- (useDebounced_cleanup_length s0).
    apply next_timeout_unique.
    + rewrite lookup_app_r, Nat.sub_diag by done. cbn.
      by destruct (useDebounced_cleanup_spec s0) as [ts ->].
    + done.
    + intros j t [Hj|[Hge Hj]]%lookup_app_Some Hl.
      { by rewrite (useDebounced_cleanup_dead s0 j t Hone Hj) in Hl. }
      destruct (j - length (timeouts (useDebounced_cleanup s0)))%nat eqn:Hi;
        [lia|done].
  - by destruct (useDebounced_cleanup_spec s0) as [ts ->].
Qed.

(** Waiting for less than what the timer has left changes the clock only. *)
Lemma wait_short st d value gap :
  reachable st → timer st = Some (d, value) → (now st + gap < d)%nat →
  step st (Wait gap) = at_time (now st + gap) st.
Proof.
  intros Hr Ht Hg. apply timer_Some in Ht as (id & t & Hn & <- & <-).
  rewrite wait_spec by (by apply reachable_stable || by apply reachable_timer).
  rewrite Hn. rewrite bool_decide_eq_false_2; [done|lia].
Qed.

(** Without a timeout to run, time changes the clock only. *)
Lemma wait_idle st ms :
  reachable st → timer st = None →
  step st (Wait ms) = at_time (now st + ms) st.
Proof.
  intros Hr Ht.
  rewrite wait_spec by (by apply reachable_stable || by apply reachable_timer).
  unfold timer in Ht. by destruct (next_timeout (timeouts st) 0).
Qed.

(** Waiting until the timer is due runs its callback, once, and renders. *)
Lemma wait_fire st d value ms :
  reachable st → timer st = Some (d, value) → (d ≤ now st + ms)%nat →
  value = query st
  ∧ ∃ s, fired st d value s
         ∧ step st (Wait ms) = at_time (now st + ms) (rerender s).
Proof.
  intros Hr Ht Hg. apply timer_Some in Ht as (id & t & Hn & <- & <-).
  pose proof (reachable_timer _ Hr) as Hcur.
  pose proof (timer_current_next st Hcur) as Hnext. rewrite Hn in Hnext.
  destruct Hnext as (Hid & Hlook & Hl & Hv & Hdue).
  split; [done|]. exists (fire id t st).
  split.
  - unfold fired, fire. rewrite Nat.max_r by lia. do 7 (split; [done|]).
    split; [|done]. apply timer_None. cbn [timeouts]. intros j t0.
    apply (alter_clear_dead (timeouts st) id j t0).
    intros j' t' Hj' Hl'. destruct (proj1 Hcur j' t' Hj' Hl') as [? _].
    congruence.
  - rewrite wait_spec by (by apply reachable_stable || done).
    by rewrite Hn, bool_decide_eq_true_2.
Qed.

Lemma wait_fire_emitted st d value ms :
  reachable st → timer st = Some (d, value) → (d ≤ now st + ms)%nat →
  emitted (step st (Wait ms)) = emitted st ++ [(d, value)]
  ∧ debouncedQuery (step st (Wait ms)) = value
  ∧ query (step st (Wait ms)) = query st.
Proof.
  intros Hr Ht Hg.
  destruct (wait_fire st d value ms Hr Ht Hg) as (_ & s & Hs & ->).
  destruct Hs as (Hh & _ & _ & _ & _ & _ & He & _).
  destruct (rerender_cells s) as (Hq & Hdq & _ & He').
  cbn [hooks emitted at_time]. by rewrite He', Hq, Hdq, He, Hh.
Qed.

Lemma last_cons_default {A} (x d : A) l : List.last (x :: l) d = List.last l x.
Proof.
  revert x d. induction l as [|y l IH]; intros x d; [done|].
  change (List.last (x :: y :: l) d) with (List.last (y :: l) d).
  by rewrite (IH y d), (IH y x).
Qed.

(** While keystrokes follow one another in less than the delay, nothing is
    emitted, no request is made, no cell but the raw query is written,
    and the timer is the one of the last keystroke. *)
Lemma keystrokes_pending rest : ∀ st value,
  reachable st → timer st = Some ((now st + delay)%nat, value) →
  query st = value →
  all_changes value rest.*2 → Forall (λ k, (k.1 < delay)%nat) rest →
  let st' := run st (keystrokes rest) in
  timer st' = Some ((now st + sum_list rest.*1 + delay)%nat,
                    List.last rest.*2 value)
  ∧ now st' = (now st + sum_list rest.*1)%nat
  ∧ emitted st' = emitted st
  ∧ controllers st' = controllers st
  ∧ hooks st' = setQuery (List.last rest.*2 value) st.
Proof.
  induction rest as [|[gap next] rest IH]; intros st value Hr Ht Hq Hch Hgaps.
  { cbn. rewrite Nat.add_0_r. do 4 (split; [done|]).
    rewrite <- Hq. by destruct st as [[]]. }
  destruct Hch as [Hne Hch].
  inversion_clear Hgaps as [|? ? Hgap Hgaps'].
  cbn in Hgap. cbn [keystrokes]. rewrite !run_cons.
  rewrite (wait_short st _ _ gap Hr Ht) by lia.
  assert (reachable (at_time (now st + gap) st)) as Hr1.
  { rewrite <- (wait_short st _ _ gap Hr Ht) by lia. by constructor. }
  destruct (keystroke (at_time (now st + gap) st) next Hr1)
    as (Ht' & Hn' & He' & Hk' & Hh'); [by rewrite <- Hq in Hne|].
  cbn [now at_time] in Ht', Hn'.
  destruct (IH (step (at_time (now st + gap) st) (Change next)) next)
    as (Ht'' & Hn'' & He'' & Hk'' & Hh'');
    [by constructor|by rewrite Hn'|by rewrite Hh'|done..|].
  cbn [fmap list_fmap sum_list sum_list_with fst snd]. cbn zeta in *.
  rewrite Ht'', Hn'', He'', Hk'', Hh'', Hn', He', Hk', Hh'.
  cbn [emitted controllers hooks at_time].
  unfold id. rewrite last_cons_default.
  split; [do 2 f_equal; lia|]. split; [lia|]. by repeat split.
Qed.

(** A burst of typing, from its first keystroke on. *)
Lemma burst st value rest :
  reachable st → value ≠ query st →
  all_changes value rest.*2 → Forall (λ k, (k.1 < delay)%nat) rest →
  let st' := run st (Change value :: keystrokes rest) in
  timer st' = Some ((now st + sum_list rest.*1 + delay)%nat,
                    List.last rest.*2 value)
  ∧ now st' = (now st + sum_list rest.*1)%nat
  ∧ emitted st' = emitted st
  ∧ controllers st' = controllers st
  ∧ hooks st' = setQuery (List.last rest.*2 value) st.
Proof.
  intros Hr Hv Hch Hgaps. rewrite run_cons.
  destruct (keystroke st value Hr Hv) as (Ht & Hn & He & Hk & Hh).
  destruct (keystrokes_pending rest (step st (Change value)) value)
    as (Ht' & Hn' & He' & Hk' & Hh');
    [by constructor|by rewrite Hn|by rewrite Hh|done..|].
  cbn zeta in *. rewrite Ht', Hn', He', Hk', Hh', Hn, He, Hk, Hh.
  by repeat split.
Qed.

(** ** The empty query *)

Lemma supersede_no_cleanup st : cleanup st = None → supersede st = st.
Proof. intros Hc. unfold supersede, fetch_cleanup. by rewrite Hc. Qed.

Lemma supersedes_no_cleanup st : cleanup st = None → supersedes st = false.
Proof. intros Hc. unfold supersedes. by rewrite Hc. Qed.

Lemma commit_cleared st :
  cleared st →
  cleared (commit st) ∧ controllers (commit st) = controllers st
  ∧ loading (commit st) = loading st.
Proof.
  intros (Hd & Hres & Hn & He & Hc). unfold cleared.
  destruct (commit_deps st) as (_ & -> & _).
  destruct (changed (fetch_deps st) (debouncedQuery st, page st)) eqn:Hf.
  - destruct (commit_refetch st Hf) as (-> & -> & -> & -> & -> & ->).
    rewrite supersede_no_cleanup, supersedes_no_cleanup by done.
    rewrite Hd. cbn. by rewrite app_nil_r.
  - destruct (commit_no_fetch st Hf) as (-> & -> & -> & -> & -> & ->). auto 10.
Qed.

Lemma commit_clears (st : App) :
  debouncedQuery st = [] →
  changed (fetch_deps st) (debouncedQuery st, page st) = true →
  cleared (commit st) ∧ controllers (commit st) = controllers (supersede st)
  ∧ loading (commit st) = (if supersedes st then false else loading st).
Proof.
  intros Hd Hf. unfold cleared.
  destruct (commit_deps st) as (_ & -> & _).
  destruct (commit_refetch st Hf) as (-> & -> & -> & -> & -> & ->).
  rewrite Hd. cbn. by rewrite app_nil_r.
Qed.

Lemma rerender_clears (st : App) :
  debouncedQuery st = [] →
  changed (fetch_deps st) (debouncedQuery st, page st) = true →
  cleared (rerender st) ∧ controllers (rerender st) = controllers (supersede st)
  ∧ loading (rerender st) = (if supersedes st then false else loading st).
Proof.
  intros Hd Hf. destruct (commit_clears st Hd Hf) as (Hc & Hk & Hl).
  destruct (commit_cleared _ Hc) as (Hc' & Hk' & Hl').
  unfold rerender, flush.
  assert (stable st = false) as ->.
  { unfold stable. rewrite Hf. by rewrite orb_true_r. }
  repeat destruct (stable _); (split; [done|split; congruence]).
Qed.

Lemma prev_disabled_spec (s : cells) : prev_disabled s = true ↔ page s = 1.
Proof. apply bool_decide_eq_true. Qed.

Lemma next_disabled_spec (s : cells) :
  next_disabled s = true ↔ page s = totalPages s ∨ totalPages s = 0.
Proof.
  unfold next_disabled. by rewrite orb_true_iff, !bool_decide_eq_true.
Qed.

Lemma step_Prev st :
  step st Prev = if prev_disabled st then st else rerender (update onPrev st).
Proof. reflexivity. Qed.

Lemma step_Next st :
  step st Next = if next_disabled st then st else rerender (update onNext st).
Proof. reflexivity. Qed.

Lemma next_disabled_no_results (s : cells) :
  numFound s = 0 → next_disabled s = true.
Proof.
  intros Hn. apply next_disabled_spec. right. unfold totalPages. by rewrite Hn.
Qed.

Lemma reachable_empty_screen st : reachable st → empty_screen st.
Proof.
  induction 1 as [|st e Hr IH]; [by intros _; vm_compute|].
  pose proof (reachable_stable _ Hr) as Hs.
  pose proof (reachable_single _ Hr) as [Hone _].
  destruct e as [value| | | |ms|c o].
  - destruct (decide (value = query st)) as [->|Hv]; [by rewrite change_same|].
    intros Hd. destruct (keystroke st value Hr Hv) as (_ & _ & _ & Hk & Hh).
    assert (debouncedQuery st = []) as Hd0 by (by rewrite Hh in Hd).
    destruct (IH Hd0) as [(_ & Hres & Hn & He & Hc) Hp].
    assert (cleanup (step st (Change value)) = None) as Hc'.
    { rewrite keystroke_state by done.
      by destruct (useDebounced_cleanup_spec (update (setQuery value) st))
        as [ts ->]. }
    unfold cleared. rewrite Hc', Hh. cbn. by repeat split.
  - change (step st Clear) with (step st (Change [])).
    destruct (decide ([] = query st)) as [Hq|Hv].
    { by rewrite Hq, change_same. }
    intros Hd. destruct (keystroke st [] Hr Hv) as (_ & _ & _ & Hk & Hh).
    assert (debouncedQuery st = []) as Hd0 by (by rewrite Hh in Hd).
    destruct (IH Hd0) as [(_ & Hres & Hn & He & Hc) Hp].
    assert (cleanup (step st (Change [])) = None) as Hc'.
    { rewrite keystroke_state by done.
      by destruct (useDebounced_cleanup_spec (update (setQuery []) st))
        as [ts ->]. }
    unfold cleared. rewrite Hc', Hh. cbn. by repeat split.
  - rewrite step_Prev. destruct (prev_disabled st) eqn:Hp; [done|].
    intros Hd. destruct (rerender_cells (update onPrev st)) as (_ & Hd' & _).
    rewrite Hd' in Hd. destruct (IH Hd) as [_ Hpage].
    apply prev_disabled_spec in Hpage. congruence.
  - rewrite step_Next. destruct (next_disabled st) eqn:Hp; [done|].
    intros Hd. destruct (rerender_cells (update onNext st)) as (_ & Hd' & _).
    rewrite Hd' in Hd. destruct (IH Hd) as [(_ & _ & Hn & _) _].
    apply next_disabled_no_results in Hn. congruence.
  - destruct (timer st) as [[d value]|] eqn:Ht.
    2:{ by rewrite wait_idle. }
    destruct (decide (d ≤ now st + ms)%nat) as [Hdue|Hdue].
    2:{ rewrite (wait_short st d value) by (done || lia). exact IH. }
    destruct (wait_fire st d value ms Hr Ht Hdue) as (Hv & s & Hfired & ->).
    destruct Hfired as (Hh & Hdd & Hrd & Hfd & Hc & Hk & _).
    intros Hd. change (debouncedQuery (rerender s) = []) in Hd.
    change (cleared (rerender s) ∧ page (rerender s) = 1).
    destruct (rerender_cells s) as (_ & Hd' & _).
    rewrite Hd', Hh in Hd. cbn in Hd. rewrite Hd in Hv, Hh.
    apply stable_spec in Hs as (Hsd & Hsr & Hsf).
    destruct (decide (debouncedQuery st = [])) as [Hd0|Hd0].
    + assert (stable s = true) as Hst.
      { apply stable_spec. rewrite Hh, Hdd, Hrd, Hfd. cbn.
        rewrite Hsd, Hsr, Hsf, Hd0, <- Hv. auto. }
      rewrite rerender_id by done.
      destruct (IH Hd0) as [(_ & Hres & Hn & He & Hc0) Hp].
      unfold cleared. rewrite Hh, Hc. cbn. auto 10.
    + destruct (rerender_clears s) as [Hcl _].
      { by rewrite Hh. }
      { apply changed_true. rewrite Hfd, Hh, Hsf. cbn. congruence. }
      split; [done|]. apply rerender_page_reset.
      rewrite Hrd, Hh, Hsr. cbn. congruence.
  - intros Hd. destruct (in_flight_cases st c) as [Hc|Hc].
    2:{ rewrite settle_not_in_flight in Hd |- * by done. by apply IH. }
    rewrite settle_in_flight_state in Hd |- * by done.
    assert (debouncedQuery st = []) as Hd0.
    { revert Hd. cbn. resume_cases o; done. }
    destruct (IH Hd0) as [(_ & _ & _ & _ & Hk) _].
    destruct (Hone c Hc) as [Hk' _]. congruence.
Qed.

(** * The claims *)

(** ** Debounce *)

(** C9: a first keystroke, then keystrokes each less than the delay after
    the one before, each changing the input, then a pause of at least the
    delay: [setV] is called exactly once during all of this, with the last
    value, one delay after the last keystroke; the debounced query is then
    that value. The timeout of every keystroke but the last has been
    cleared by the cleanup of the effect: a timeout that [clearTimeout]
    left in place would run and call [setV] with its value. *)
Theorem debounce_quiescence st value rest ms :
  reachable st → value ≠ query st → all_changes value rest.*2 →
  Forall (λ k, (k.1 < delay)%nat) rest → (delay ≤ ms)%nat →
  let st' := run st (Change value :: keystrokes rest ++ [Wait ms]) in
  emitted st'
  = emitted st
    ++ [((now st + sum_list rest.*1 + delay)%nat, List.last rest.*2 value)]
  ∧ debouncedQuery st' = List.last rest.*2 value.
Proof.
  intros Hr Hv Hch Hgaps Hms st'. subst st'.
  rewrite app_comm_cons, run_app.
  destruct (burst st value rest Hr Hv Hch Hgaps) as (Ht & Hn & He & _).
  cbn zeta in Ht, Hn, He.
  assert (reachable (run st (Change value :: keystrokes rest))) as Hr'
    by (by apply reachable_run).
  set (s := run st (Change value :: keystrokes rest)) in *.
  change (run s [Wait ms]) with (step s (Wait ms)).
  destruct (wait_fire_emitted s _ _ ms Hr' Ht) as (He' & Hd' & _); [lia|].
  by rewrite He', Hd', He.
Qed.

Lemma debounce_quiescence_witness :
  let typing :=
    Change (of_string "Dune")
    :: keystrokes [(100%nat, of_string "Dune "); (100%nat, of_string "Dune")]
    ++ [Wait 450] in
  emitted (run mounted typing) = [(650%nat, of_string "Dune")]
  ∧ debouncedQuery (run mounted typing) = of_string "Dune".
Proof.
  apply (debounce_quiescence mounted (of_string "Dune")
           [(100%nat, of_string "Dune "); (100%nat, of_string "Dune")] 450).
  - apply reachable_mounted.
  - vm_compute. discriminate.
  - vm_compute. repeat split; discriminate.
  - repeat (apply List.Forall_cons; [unfold delay; cbn; lia|]).
    apply List.Forall_nil.
  - reflexivity.
Defined.

(** ** Page reset *)

(** C2 fails when the page is not 1: the second page of "Dune" is on
    screen when the debounced query becomes "Emma". The render that sees
    the new query still sees page 2, and its fetch effect requests
    offset 20; [setPage(1)] shows in the next render only, which aborts
    that request, so that it rejects, and requests offset 0 (in general,
    lemma [first_request_for_new_query]). *)
Theorem new_query_first_request_keeps_old_page :
  let st := Sample.second_page in
  let st' := run st [Change Sample.emma; Wait 450] in
  page st = 2
  ∧ drop (length (controllers st)) (controllers st')
    = [Controller true
         (Some "https://openlibrary.org/search.json?title=Emma&limit=20&offset=20")
         true;
       Controller false
         (Some "https://openlibrary.org/search.json?title=Emma&limit=20&offset=0")
         false]
  ∧ page st' = 1.
Proof. vm_compute. repeat split; reflexivity. Qed.

(** ** The request and its success *)

(** C3, as stated, fails on a query with an unpaired surrogate:
    [encodeURIComponent] throws inside the [try] block, so that no request
    is made and the URIError's message becomes the error. *)
Lemma no_request_for_unpaired_surrogate :
  let st := run mounted [Change [55357%N]; Wait 450] in
  debouncedQuery st = [55357%N] ∧ map url (controllers st) = [None]
  ∧ idle st ∧ loading st = false ∧ error st = Some "URI malformed".
Proof.
  vm_compute. repeat split. intros c [u Hu]. destruct c as [|[|c]]; discriminate.
Qed.

(** C3, amended: for a non-empty query that [encodeURIComponent] accepts
    (one without unpaired surrogate) and a page [p], the fetch effect makes
    exactly one request, whose URL carries the encoded query as [title],
    [limit=20] and [offset=(p-1)*20]; and when the request in flight gets
    a 2xx response whose JSON body is not [null], [results] becomes its
    [docs] (the empty list when missing) and [numFound] its [numFound]
    ([0] when missing). *)
Theorem request_and_success :
  (∀ st d p q,
     d ≠ [] → encodeURIComponent d = Some q →
     controllers (fetch_effect d p st)
     = controllers st
       ++ [Controller false
             (Some ("https://openlibrary.org/search.json?title=" +:+ q
                    +:+ "&limit=20&offset=" +:+ show ((p - 1) * 20)))
             false])
  ∧ (∀ st c status docs n,
       reachable st → in_flight st c → 200 ≤ status ≤ 299 →
       let st' := step st (Settle c (Response status (inr (DObj docs n)))) in
       results st' = default [] docs ∧ numFound st' = default 0 n).
Proof.
  split.
  - intros st d p q Hd Hq. unfold fetch_effect, fetchBooks, fetch.
    destruct d as [|c d]; [done|]. cbn [falsy]. rewrite Hq. cbn.
    rewrite <- (Nat.add_0_r (length (controllers st))).
    by rewrite alter_app_r.
  - intros st c status docs n Hr Hc Hs st'. subst st'.
    rewrite (settle_in_flight st c _ (reachable_stable _ Hr) Hc).
    by rewrite resume_success.
Qed.

Lemma request_and_success_witness :
  map url (controllers (fetch_effect (of_string "The Alchemist") 3 mounted))
  = [Some "https://openlibrary.org/search.json?title=The%20Alchemist&limit=20&offset=40"]
  ∧ numFound (step Sample.second_page (Settle 1 (Sample.found 44))) = 44.
Proof.
  split.
  - rewrite (proj1 request_and_success mounted _ 3 "The%20Alchemist");
      [reflexivity|discriminate|reflexivity].
  - apply (proj2 request_and_success Sample.second_page 1%nat 200
             (Some (replicate 20 Sample.book)) (Some 44)).
    + apply reachable_run, reachable_run, reachable_mounted.
    + apply in_flightb_true. vm_compute. reflexivity.
    + lia.
Defined.

(** ** Failures *)

(** C5, as stated, fails on a 2xx response whose JSON body has no [docs]:
    [data.docs || []] makes it a success with no results. *)
Lemma missing_docs_is_success :
  let st := run mounted [Change Sample.dune; Wait 450] in
  let st' := step st (Settle 0 (Response 200 (inr (DObj None (Some 45))))) in
  in_flight st 0 ∧ error st' = None ∧ loading st' = false
  ∧ results st' = [] ∧ numFound st' = 45.
Proof.
  split; [apply in_flightb_true|]; vm_compute; repeat split; reflexivity.
Qed.

(** C5, amended: a status outside 200-299, a body that is not JSON and a
    [null] body make the request in flight fail, [error] being set to the
    message of the exception; a 2xx JSON body without [docs] does not: the
    request succeeds with no results, the count of the response ([0] when
    missing too) and no error. *)
Theorem response_shape st c status body :
  reachable st → in_flight st c →
  let st' := step st (Settle c (Response status body)) in
  (¬ (200 ≤ status ≤ 299) → error st' = Some "Network response was not ok")
  ∧ (200 ≤ status ≤ 299 → ∀ msg, body = inl msg → error st' = Some msg)
  ∧ (200 ≤ status ≤ 299 → body = inr DNull →
     error st' = Some (message TypeError_null))
  ∧ (200 ≤ status ≤ 299 → ∀ n, body = inr (DObj None n) →
     error st' = None ∧ loading st' = false
     ∧ results st' = [] ∧ numFound st' = default 0 n).
Proof.
  intros Hr Hc st'. subst st'.
  rewrite (settle_in_flight st c _ (reachable_stable _ Hr) Hc).
  split; [|split; [|split]].
  - intros Hs. by rewrite (resume_failure _ _ st (bad_status status body Hs)).
  - intros Hs msg ->. by rewrite (resume_failure _ _ st (not_json status msg Hs)).
  - intros Hs ->. by rewrite (resume_failure _ _ st (null_body status Hs)).
  - intros Hs n ->. rewrite resume_success by done. cbn.
    destruct (reachable_single _ Hr) as [Hone _]. by destruct (Hone c Hc).
Qed.

Lemma response_shape_witness :
  let st := Sample.second_page in
  error (step st (Settle 1 (Response 404 (inl "Unexpected token <"))))
  = Some "Network response was not ok"
  ∧ error (step st (Settle 1 (Response 200 (inl "Unexpected token <"))))
    = Some "Unexpected token <"
  ∧ results (step st (Settle 1 (Response 200 (inr (DObj None None))))) = [].
Proof.
  intros st.
  assert (reachable st) as Hr
    by apply reachable_run, reachable_run, reachable_mounted.
  assert (in_flight st 1) as Hc by (apply in_flightb_true; vm_compute; reflexivity).
  split; [|split].
  - apply (proj1 (response_shape st 1 404 _ Hr Hc)). lia.
  - apply (proj1 (proj2 (response_shape st 1 200 _ Hr Hc))); [lia|reflexivity].
  - apply (proj2 (proj2 (proj2 (response_shape st 1 200 _ Hr Hc)))) with None;
      [lia|reflexivity].
Defined.

(** C6: when the request in flight fails other than by cancellation (a
    transport error, a status outside 200-299, a body that is not JSON or
    is [null]), [error] becomes the message of the exception, [loading]
    is cleared, and [results] and [numFound] keep their values. *)
Theorem failure_keeps_last_results st c o err :
  reachable st → in_flight st c →
  request_failure o err → name err ≠ "AbortError" →
  error (step st (Settle c o)) = Some (message err)
  ∧ loading (step st (Settle c o)) = false
  ∧ results (step st (Settle c o)) = results st
  ∧ numFound (step st (Settle c o)) = numFound st.
Proof.
  intros Hr Hc Hf Hn.
  rewrite (settle_in_flight st c o (reachable_stable _ Hr) Hc).
  by rewrite (resume_failure _ _ _ Hf Hn).
Qed.

Lemma failure_keeps_last_results_witness :
  let st := Sample.second_page in
  let st' := step st (Settle 1 (Response 503 (inl "Unexpected token <"))) in
  error st' = Some "Network response was not ok" ∧ loading st' = false
  ∧ results st' = replicate 20 Sample.book ∧ numFound st' = 45.
Proof.
  intros st st'.
  destruct (failure_keeps_last_results st 1
              (Response 503 (inl "Unexpected token <"))
              (Error "Network response was not ok"))
    as (He & Hl & Hres & Hn).
  - apply reachable_run, reachable_run, reachable_mounted.
  - apply in_flightb_true. vm_compute. reflexivity.
  - constructor. lia.
  - discriminate.
  - split; [exact He|]. split; [exact Hl|].
    unfold st'. rewrite Hres, Hn. split; vm_compute; reflexivity.
Defined.

(** ** Supersession *)

(** C1 fails on [loading]: "Dune" is being fetched when the debounced
    query becomes "Emma". The cleanup of the fetch effect aborts the first
    request, and the effect makes the second and sets [loading]. The first
    request then rejects with its AbortError: the [catch] clause returns
    without writing, but the [finally] clause still runs
    [setLoading(false)]. So the second request is in flight and [loading]
    is false. What the network answers to the first request later changes
    nothing (in general, lemma [superseded_request_rejects]). *)
Theorem superseded_request_clears_loading :
  let st := run mounted [Change Sample.dune; Wait 450; Change Sample.emma] in
  let st' := step st (Wait 450) in
  in_flight st 0 ∧ loading st = true
  ∧ controllers st' !! 0%nat
    = Some (Controller true
              (Some "https://openlibrary.org/search.json?title=Dune&limit=20&offset=0")
              true)
  ∧ in_flight st' 1 ∧ loading st' = false
  ∧ ∀ o, step st' (Settle 0 o) = st'.
Proof.
  intros st st'.
  split; [apply in_flightb_true; vm_compute; reflexivity|].
  split; [vm_compute; reflexivity|].
  split; [vm_compute; reflexivity|].
  split; [apply in_flightb_true; vm_compute; reflexivity|].
  split; [vm_compute; reflexivity|].
  intros o. apply settle_not_in_flight. rewrite <- in_flightb_true.
  vm_compute. discriminate.
Qed.

(** The same, render by render. Once the timeout of "Emma" has run, the
    cleanup of the fetch effect aborts request 0, and the effects leave
    request 1 in flight and [loading] set; the rejection of request 0
    then clears [loading], and that is the state the event ends in. *)
Example loading_cleared_by_rejection :
  let st := run mounted [Change Sample.dune; Wait 450; Change Sample.emma] in
  let s := fire 2 (Timeout 900 Sample.emma true) st in
  let effects :=
    fetch_effect Sample.emma 1 (reset_effect Sample.emma (fetch_cleanup s)) in
  timeouts st !! 2%nat = Some (Timeout 900 Sample.emma true)
  ∧ cleanup st = Some 0%nat
  ∧ in_flight effects 1 ∧ loading effects = true
  ∧ loading (rejected (Some 0%nat) effects) = false
  ∧ step st (Wait 450) = rejected (Some 0%nat) effects.
Proof.
  intros st s effects.
  split; [vm_compute; reflexivity|].
  split; [vm_compute; reflexivity|].
  split; [apply in_flightb_true; vm_compute; reflexivity|].
  split; [vm_compute; reflexivity|].
  split; [vm_compute; reflexivity|].
  vm_compute. reflexivity.
Qed.

(** Resolved out of order, the second request first and the superseded
    one after it, the two leave the results and the count of the second. *)
Example out_of_order_resolution :
  let st := run mounted [Change Sample.dune; Wait 450;
                         Change Sample.emma; Wait 450;
                         Settle 1 (Sample.found 7); Settle 0 (Sample.found 45)] in
  numFound st = 7 ∧ error st = None ∧ loading st = false.
Proof. vm_compute. repeat split; reflexivity. Qed.

(** ** The empty query *)



(** ** Pagination *)

(** C4: [totalPages] is the ceiling of [numFound / 20] and is displayed as
    at least 1; Prev is disabled exactly at page 1, where a click leaves
    the state as it is, and otherwise sets the page to
    [max 1 (page - 1)]; Next is disabled exactly when the page is
    [totalPages] or [totalPages] is 0, where a click leaves the state as
    it is, and otherwise sets the page to [min totalPages (page + 1)]. *)
Theorem pagination_controls st :
  reachable st →
  (20 * (totalPages st - 1) < numFound st ≤ 20 * totalPages st)
  ∧ 1 ≤ displayedPages st
  ∧ (1 ≤ totalPages st → displayedPages st = totalPages st)
  ∧ (prev_disabled st = true ↔ page st = 1)
  ∧ (page st = 1 → step st Prev = st)
  ∧ (page st ≠ 1 → page (step st Prev) = Z.max 1 (page st - 1))
  ∧ (next_disabled st = true ↔ page st = totalPages st ∨ totalPages st = 0)
  ∧ (page st = totalPages st ∨ totalPages st = 0 → step st Next = st)
  ∧ (¬ (page st = totalPages st ∨ totalPages st = 0) →
     page (step st Next) = Z.min (totalPages st) (page st + 1)).
Proof.
  intros Hr. apply reachable_stable, stable_spec in Hr as (_ & Hreset & _).
  split; [apply (ceil_div_spec (numFound st) 20); lia|].
  split; [unfold displayedPages; lia|].
  split; [unfold displayedPages; lia|].
  split; [apply prev_disabled_spec|].
  split; [intros H; rewrite step_Prev; by apply prev_disabled_spec in H as ->|].
  split.
  { intros H. rewrite step_Prev. destruct (prev_disabled st) eqn:Hd.
    - by apply prev_disabled_spec in Hd.
    - by rewrite rerender_page. }
  split; [apply next_disabled_spec|].
  split; [intros H; rewrite step_Next; by apply next_disabled_spec in H as ->|].
  intros H. rewrite step_Next. destruct (next_disabled st) eqn:Hd.
  - by apply next_disabled_spec in Hd.
  - rewrite rerender_page by done. cbn.
    destruct (Z.eqb_spec (totalPages st) 0); [tauto|done].
Qed.

Lemma pagination_controls_witness :
  page (step Sample.first_page Next) = 2 ∧ step Sample.first_page Prev = Sample.first_page.
Proof.
  pose proof (pagination_controls Sample.first_page
                (reachable_run _ _ reachable_mounted)) as H.
  split.
  - etransitivity; [apply H|reflexivity]. vm_compute. intros [?|?]; discriminate.
  - apply H. reflexivity.
Defined.

(** ** The page number *)

(** C10, as stated, fails when a response reports a negative count:
    [totalPages] is then negative, Next is enabled and
    [Math.min(totalPages || 1, p + 1)] is [totalPages]. *)
Lemma page_negative_after_negative_count :
  let st := run mounted [Change Sample.dune; Wait 450;
                         Settle 0 (Response 200 (inr (DObj (Some []) (Some (-25)))));
                         Next] in
  reachable st ∧ page st = -1.
Proof.
  split; [apply reachable_run, reachable_mounted|vm_compute; reflexivity].
Qed.

(** The Next handler can lower the page: 45 matches when the first page
    was fetched, 10 when the second was. *)
Example next_can_lower_page :
  let st := run Sample.second_page [Settle 1 (Sample.found 10)] in
  page st = 2 ∧ totalPages st = 1 ∧ page (step st Next) = 1.
Proof. vm_compute. repeat split; reflexivity. Qed.

(** C10, amended: as long as no response reports a negative count, the
    page is at least 1 in every reachable state. It starts at 1, the reset
    effect sets it to 1, the Prev handler never yields less than 1, and the
    Next handler yields [min (totalPages || 1) (p + 1)], which may be less
    than [p] but is at least 1 while the count is not negative. *)
Theorem page_at_least_one (es : list event) :
  Forall count_nonneg es →
  1 ≤ page (run mounted es)
  ∧ page mounted = 1
  ∧ (∀ s : cells, 1 ≤ page (onPrev s))
  ∧ (∀ s : cells, 1 ≤ page s → 0 ≤ numFound s → 1 ≤ page (onNext s)).
Proof.
  intros Hes. split; [|split; [reflexivity|split; [apply onPrev_page|]]].
  - assert (page_positive mounted) as H0 by (split; vm_compute; discriminate).
    revert H0. generalize mounted. unfold run.
    induction Hes as [|e es He _ IH]; intros st H0; cbn -[step]; [apply H0|].
    by apply IH, step_page_positive.
  - intros s Hp Hn. by apply onNext_page.
Qed.

Lemma page_at_least_one_witness :
  1 ≤ page (run mounted [Change Sample.dune; Wait 450; Settle 0 (Sample.found 45);
                         Next; Next; Next; Prev]).
Proof.
  refine (proj1 (page_at_least_one _ _)).
  repeat (apply List.Forall_cons; [first [exact I | vm_compute; discriminate]|]).
  apply List.Forall_nil.
Defined.

(** ** Cover URLs *)

(** C8, as stated, fails on a record whose [cover_i] is [0]: both fields
    are present, yet the test [if (doc.cover_i)] fails on [0] and the
    ISBN form is chosen. *)
Lemma coverUrl_cover_id_zero :
  let d := Doc "/works/OL893415W" "Dune" None None (Some 0)
               (Some ["9780441013593"; "0441013597"]) in
  coverUrl d = Some "https://covers.openlibrary.org/b/isbn/9780441013593-M.jpg"
  ∧ coverUrl d ≠ Some (cover_by_id 0).
Proof. split; [reflexivity|discriminate]. Qed.

(** C8, amended: a record whose [cover_i] is present and not [0] gets the
    numeric-id form, whatever its [isbn]; a record whose [cover_i] is
    missing or [0] gets the ISBN form of the first element of a non-empty
    [isbn], and no cover URL when [isbn] is missing or empty. *)
Theorem coverUrl_resolution (d : doc) :
  (∀ n, cover_i d = Some n → n ≠ 0 → coverUrl d = Some (cover_by_id n))
  ∧ (∀ i l, cover_i d = None ∨ cover_i d = Some 0 →
            isbn d = Some (i :: l) → coverUrl d = Some (cover_by_isbn i))
  ∧ (cover_i d = None ∨ cover_i d = Some 0 →
     isbn d = None ∨ isbn d = Some [] → coverUrl d = None).
Proof.
  unfold coverUrl. split; [|split].
  - intros n -> Hn. by destruct (Z.eqb_spec n 0).
  - intros i l [-> | ->] ->; reflexivity.
  - intros [-> | ->] [-> | ->]; reflexivity.
Qed.

Lemma coverUrl_resolution_witness :
  coverUrl (Doc "/works/OL893415W" "Dune" None None (Some 11481354)
                (Some ["9780441013593"]))
  = Some "https://covers.openlibrary.org/b/id/11481354-M.jpg"
  ∧ coverUrl (Doc "/works/OL893415W" "Dune" None None None
                  (Some ["9780441013593"; "0441013597"]))
    = Some "https://covers.openlibrary.org/b/isbn/9780441013593-M.jpg"
  ∧ coverUrl (Doc "/works/OL893415W" "Dune" None None None None) = None.
Proof.
  split; [|split].
  - apply (proj1 (coverUrl_resolution _) 11481354); [reflexivity|lia].
  - apply (proj1 (proj2 (coverUrl_resolution _)) "9780441013593" ["0441013597"]);
      [left|]; reflexivity.
  - apply (proj2 (proj2 (coverUrl_resolution _))); left; reflexivity.
Defined.

(** * Further properties of the component *)

(** ** Invariants of the reachable states *)

(** X1: At most one request is in flight: two controllers whose requests are
    in flight are the same controller. *)
Theorem at_most_one_in_flight st c c' :
  reachable st → in_flight st c → in_flight st c' → c = c'.
Proof.
  intros Hr Hc Hc'. destruct (reachable_single _ Hr) as [Hone _].
  destruct (Hone c Hc) as [Hk _], (Hone c' Hc') as [Hk' _]. congruence.
Qed.

Lemma at_most_one_in_flight_witness :
  in_flight Sample.second_page 1 ∧ ¬ in_flight Sample.second_page 0.
Proof.
  assert (in_flight Sample.second_page 1) as Hc
    by (apply in_flightb_true; vm_compute; reflexivity).
  split; [exact Hc|]. intros H0.
  assert (0%nat = 1%nat) as H; [|discriminate H].
  apply (at_most_one_in_flight Sample.second_page 0 1); [|exact H0|exact Hc].
  apply reachable_run, reachable_run, reachable_mounted.
Defined.

(** X2: While a request is in flight no error is on screen: starting the
    request cleared it, and only that request can set it. *)
Theorem no_error_while_in_flight st c :
  reachable st → in_flight st c → error st = None ∧ error_banner st = None.
Proof.
  intros Hr Hc. destruct (reachable_single _ Hr) as [Hone _].
  destruct (Hone c Hc) as [_ He]. unfold error_banner. by rewrite He.
Qed.

Lemma no_error_while_in_flight_witness :
  let failed := step Sample.second_page (Settle 1 (Response 500 (inl ""))) in
  error failed = Some "Network response was not ok"
  ∧ error (step failed Prev) = None.
Proof.
  intros failed. split; [vm_compute; reflexivity|].
  refine (proj1 (no_error_while_in_flight (step failed Prev) 2 _ _)).
  - apply reachable_step, reachable_step, reachable_run, reachable_run,
      reachable_mounted.
  - apply in_flightb_true. vm_compute. reflexivity.
Defined.

(** X3: The request in flight is the one for what is on screen: its URL is
    the search URL of the debounced query, which is not empty, and of the
    page. *)
Theorem in_flight_request_is_current st c u :
  reachable st →
  controllers st !! c = Some (Controller false (Some u) false) →
  debouncedQuery st ≠ []
  ∧ ∃ q, encodeURIComponent (debouncedQuery st) = Some q
         ∧ u = "https://openlibrary.org/search.json?title=" +:+ q
               +:+ "&limit=20&offset=" +:+ show ((page st - 1) * 20).
Proof.
  intros Hr Hu.
  destruct (reachable_requests _ Hr) as (_ & HR & _).
  destruct (HR c u Hu) as (d & p & q & Hf & Hd & Hq & ->).
  apply reachable_stable, stable_spec in Hr as (_ & _ & Hf').
  rewrite Hf' in Hf. injection Hf as <- <-. split; [done|]. by exists q.
Qed.

Lemma in_flight_request_is_current_witness :
  debouncedQuery (step Scenario.retyped (Wait 450)) ≠ []
  ∧ ∃ q, encodeURIComponent (debouncedQuery (step Scenario.retyped (Wait 450)))
         = Some q
         ∧ "https://openlibrary.org/search.json?title=Emma&limit=20&offset=0"
           = "https://openlibrary.org/search.json?title=" +:+ q
             +:+ "&limit=20&offset="
             +:+ show ((page (step Scenario.retyped (Wait 450)) - 1) * 20).
Proof.
  apply (in_flight_request_is_current (step Scenario.retyped (Wait 450)) 3).
  - apply reachable_step, reachable_run, reachable_run, reachable_run,
      reachable_mounted.
  - vm_compute. reflexivity.
Defined.

(** X4: [loading] is never set without a request in flight: "Searching..."
    shows only while a request has been made, has not settled and has not
    been aborted. The converse fails: a request may be in flight with
    [loading] cleared (theorem [superseded_request_clears_loading]). *)
Theorem loading_means_in_flight st :
  reachable st → loading st = true → ∃ c, in_flight st c.
Proof. intros Hr. by apply reachable_requests. Qed.

Lemma loading_means_in_flight_witness : ∃ c, in_flight Sample.second_page c.
Proof.
  apply loading_means_in_flight.
  - apply reachable_run, reachable_run, reachable_mounted.
  - vm_compute. reflexivity.
Defined.

(** X5: While the debounced query is empty the screen is empty: no results, a
    count of 0, no error, the first page, no request in flight, and both
    pagination buttons disabled. *)
Theorem empty_query_screen st :
  reachable st → debouncedQuery st = [] →
  results st = [] ∧ numFound st = 0 ∧ error st = None ∧ page st = 1
  ∧ idle st ∧ prev_disabled st = true ∧ next_disabled st = true
  ∧ no_results_shown st = false.
Proof.
  intros Hr Hd.
  destruct (reachable_empty_screen _ Hr Hd) as [(_ & Hres & Hn & He & Hk) Hp].
  destruct (reachable_single _ Hr) as [Hone _].
  split; [done|]. split; [done|]. split; [done|]. split; [done|].
  split; [|split; [|split]].
  - intros c Hc. destruct (Hone c Hc) as [Hk' _]. congruence.
  - by apply prev_disabled_spec.
  - by apply next_disabled_no_results.
  - unfold no_results_shown. rewrite Hd. cbn. by rewrite !andb_false_r.
Qed.

Lemma empty_query_screen_witness :
  let st := run Sample.second_page [Clear; Wait 450; Settle 1 (Sample.found 45)] in
  results st = [] ∧ numFound st = 0 ∧ page st = 1.
Proof.
  intros st.
  destruct (empty_query_screen st) as (Hres & Hn & _ & Hp & _).
  - apply reachable_run, reachable_run, reachable_run, reachable_mounted.
  - vm_compute. reflexivity.
  - auto.
Defined.

(** ** The debouncer as the rest of the component sees it *)

(** What time does, by the timer. *)
Lemma wait_cases st ms :
  reachable st →
  (timer st = None ∨ ∃ d value, timer st = Some (d, value) ∧ (now st + ms < d)%nat)
  ∧ step st (Wait ms) = at_time (now st + ms) st
  ∨ ∃ d s, timer st = Some (d, query st) ∧ (now st < d ≤ now st + ms)%nat
           ∧ fired st d (query st) s
           ∧ step st (Wait ms) = at_time (now st + ms) (rerender s).
Proof.
  intros Hr. destruct (timer st) as [[d value]|] eqn:Ht.
  - destruct (decide (d ≤ now st + ms)%nat) as [Hdue|Hdue].
    + right. destruct (wait_fire st d value ms Hr Ht Hdue) as (-> & s & Hs & Heq).
      exists d, s. split; [done|]. split; [|done].
      apply timer_Some in Ht as (id & t & Hn & <- & _).
      pose proof (timer_current_next st (reachable_timer _ Hr)) as Hnext.
      rewrite Hn in Hnext. lia.
    + left. split; [right; exists d, value; split; [done|lia]|].
      apply (wait_short st d value); [done..|lia].
  - left. split; [by left|]. by apply wait_idle.
Qed.

Lemma timer_due st d value :
  reachable st → timer st = Some (d, value) →
  value = query st ∧ (now st < d ≤ now st + delay)%nat.
Proof.
  intros Hr (id & t & Hn & <- & <-)%timer_Some.
  pose proof (timer_current_next st (reachable_timer _ Hr)) as Hnext.
  rewrite Hn in Hnext. by destruct Hnext as (_ & _ & _ & ? & ?).
Qed.

Lemma timer_none st :
  reachable st → timer st = None → debouncedQuery st = query st.
Proof.
  intros Hr Ht. apply (reachable_timer _ Hr). by apply timer_None.
Qed.

(** X6: After a pause of at least the delay the debounced query is the raw
    query, whatever happened before. *)
Theorem debounce_catches_up st ms :
  reachable st → (delay ≤ ms)%nat →
  debouncedQuery (step st (Wait ms)) = query st
  ∧ query (step st (Wait ms)) = query st.
Proof.
  intros Hr Hms.
  destruct (wait_cases st ms Hr)
    as [[[Ht|(d & value & Ht & Hd)] ->]|(d & s & Ht & Hd & Hs & ->)].
  - cbn [hooks at_time]. split; [by apply timer_none|done].
  - destruct (timer_due st d value Hr Ht). lia.
  - destruct Hs as (Hh & _). destruct (rerender_cells s) as (Hq & Hdq & _).
    cbn [hooks at_time]. by rewrite Hq, Hdq, Hh.
Qed.

Lemma debounce_catches_up_witness :
  debouncedQuery
    (run mounted [Change Sample.dune; Wait 100; Change Sample.emma; Wait 450])
  = Sample.emma.
Proof.
  apply (debounce_catches_up
           (run mounted [Change Sample.dune; Wait 100; Change Sample.emma]) 450).
  - apply reachable_run, reachable_mounted.
  - reflexivity.
Defined.

(** X7: A timeout that is still to run is the one of the last keystroke: its
    id is the one that the cleanup of the effect holds, it holds the raw
    query and it is due within the delay. So at most one timeout is still
    to run: the cleanup has cleared the timeout of every keystroke
    before. With no timeout to run, the debounced query is the raw
    query. *)
Theorem pending_timer_is_latest st :
  reachable st →
  (∀ id t, timeouts st !! id = Some t → live t = true →
     timer_id st = Some id ∧ captured t = query st
     ∧ (now st < due t ≤ now st + delay)%nat)
  ∧ (∀ id id' t t',
       timeouts st !! id = Some t → live t = true →
       timeouts st !! id' = Some t' → live t' = true → id = id')
  ∧ ((∀ id t, timeouts st !! id = Some t → live t = false) →
     debouncedQuery st = query st).
Proof.
  intros Hr. destruct (reachable_timer _ Hr) as [Hlive Hnone].
  split; [exact Hlive|]. split; [|exact Hnone].
  intros id id' t t' Hid Hl Hid' Hl'.
  destruct (Hlive id t Hid Hl) as [H1 _], (Hlive id' t' Hid' Hl') as [H2 _].
  congruence.
Qed.

Lemma pending_timer_is_latest_witness :
  let st := run mounted [Change Sample.dune; Wait 100; Change Sample.emma;
                         Wait 449] in
  map live (timeouts st) = [false; false; true] ∧ query st = Sample.emma.
Proof.
  intros st. split; [vm_compute; reflexivity|].
  destruct (proj1 (pending_timer_is_latest st
                     (reachable_run _ _ reachable_mounted)) 2%nat
              (Timeout 550 Sample.emma true)) as (_ & Hq & _).
  - vm_compute. reflexivity.
  - reflexivity.
  - symmetry. exact Hq.
Defined.

(** ** A burst of typing *)

(** X8: Typing that comes back to the debounced query before the delay has
    passed makes no request and changes nothing on screen: the timeouts of
    the values in between have been cleared, and when the last one runs,
    [setV] is given the value the cell already has. *)
Theorem edit_and_revert st value rest ms :
  reachable st → value ≠ query st → all_changes value rest.*2 →
  Forall (λ k, (k.1 < delay)%nat) rest → (delay ≤ ms)%nat →
  List.last rest.*2 value = debouncedQuery st →
  let st' := run st (Change value :: keystrokes rest ++ [Wait ms]) in
  controllers st' = controllers st
  ∧ hooks st' = setQuery (debouncedQuery st) st.
Proof.
  intros Hr Hv Hch Hgaps Hms Hlast st'. subst st'.
  rewrite app_comm_cons, run_app.
  destruct (burst st value rest Hr Hv Hch Hgaps) as (Ht & Hn & _ & Hk & Hh).
  cbn zeta in Ht, Hn, Hk, Hh. rewrite Hlast in Ht, Hh.
  assert (reachable (run st (Change value :: keystrokes rest))) as Hr'
    by (by apply reachable_run).
  set (s := run st (Change value :: keystrokes rest)) in *.
  change (run s [Wait ms]) with (step s (Wait ms)).
  destruct (wait_fire s _ _ ms Hr' Ht) as (_ & s1 & Hs1 & ->); [lia|].
  destruct Hs1 as (Hh1 & Hdd & Hrd & Hfd & _ & Hk1 & _).
  assert (hooks s1 = hooks s) as Hsame.
  { rewrite Hh1, Hh. by destruct st as [[]]. }
  assert (stable s1 = true) as Hst.
  { pose proof (reachable_stable _ Hr') as Hs.
    apply stable_spec in Hs. apply stable_spec.
    by rewrite Hsame, Hdd, Hrd, Hfd. }
  rewrite rerender_id by done. cbn [controllers hooks at_time].
  by rewrite Hk1, Hk, Hsame, Hh.
Qed.

Lemma edit_and_revert_witness :
  let st := Sample.first_page in
  let st' := run st (Change (of_string "Dune ")
                     :: keystrokes [(200%nat, of_string "Dune")] ++ [Wait 450]) in
  controllers st' = controllers st ∧ hooks st' = setQuery (debouncedQuery st) st.
Proof.
  apply (edit_and_revert Sample.first_page (of_string "Dune ")
           [(200%nat, of_string "Dune")] 450).
  - apply reachable_run, reachable_mounted.
  - vm_compute. discriminate.
  - vm_compute. split; [discriminate|exact I].
  - apply List.Forall_cons; [unfold delay; cbn; lia|apply List.Forall_nil].
  - reflexivity.
  - vm_compute. reflexivity.
Defined.

(** ** The Clear button *)

(** X9: Clear and a pause of at least the delay empty the screen, whatever
    was on it: the debounced query is empty, there are no results, the
    count is 0, there is no error, the page is the first and no request is
    in flight. *)
Theorem clear_then_pause st ms :
  reachable st → (delay ≤ ms)%nat →
  let st' := run st [Clear; Wait ms] in
  query st' = [] ∧ debouncedQuery st' = [] ∧ results st' = []
  ∧ numFound st' = 0 ∧ error st' = None ∧ page st' = 1 ∧ idle st'.
Proof.
  intros Hr Hms st'. subst st'. cbn [run foldl].
  set (st1 := step st Clear).
  assert (reachable st1) as Hr1 by (by constructor).
  assert (query st1 = []) as Hq1 by apply (rerender_cells (update (setQuery []) st)).
  assert (debouncedQuery (step st1 (Wait ms)) = query st1
          ∧ query (step st1 (Wait ms)) = query st1) as [Hd Hq].
  { destruct (wait_cases st1 ms Hr1)
      as [[[Ht|(d & value & Ht & Hd)] ->]|(d & s & Ht & Hd & Hs & ->)].
    - cbn [hooks at_time]. split; [by apply timer_none|done].
    - destruct (timer_due st1 d value Hr1 Ht). lia.
    - destruct Hs as (Hh & _). destruct (rerender_cells s) as (Hq & Hdq & _).
      cbn [hooks at_time]. by rewrite Hq, Hdq, Hh. }
  rewrite Hq1 in Hd, Hq.
  assert (reachable (step st1 (Wait ms))) as Hr2 by (by constructor).
  destruct (reachable_empty_screen _ Hr2 Hd) as [(_ & Hres & Hn & He & Hk) Hp].
  destruct (reachable_single _ Hr2) as [Hone _].
  do 6 (split; [done|]).
  intros c Hc. destruct (Hone c Hc) as [Hk' _]. congruence.
Qed.

Lemma clear_then_pause_witness :
  let st' := run Sample.second_page [Clear; Wait 450] in
  debouncedQuery st' = [] ∧ results st' = [] ∧ page st' = 1 ∧ idle st'.
Proof.
  intros st'.
  destruct (clear_then_pause Sample.second_page 450)
    as (_ & Hd & Hres & _ & _ & Hp & Hi).
  - apply reachable_run, reachable_run, reachable_mounted.
  - reflexivity.
  - auto.
Defined.

(** ** The renders after an event *)

(** An event is followed by one render, or by two when the first has
    reset a page that was not the first. *)
Lemma rerender_commits s :
  stable s = false →
  rerender s = commit s ∧ stable (commit s) = true
  ∨ rerender s = commit (commit s) ∧ stable (commit s) = false
    ∧ reset_deps s ≠ Some (debouncedQuery s) ∧ page s ≠ 1
    ∧ page (commit s) = 1
    ∧ changed (fetch_deps (commit s))
        (debouncedQuery (commit s), page (commit s)) = true.
Proof.
  intros Hs. unfold rerender.
  change (flush 2 s) with (if stable s then s else flush 1 (commit s)).
  rewrite Hs. cbn [flush].
  destruct (stable (commit s)) eqn:Hs1; [by left|]. right.
  rewrite commit_twice_stable. split; [done|]. split; [done|].
  destruct (commit_deps s) as (Hq & Hd & Hp & Hdd & Hrd & Hfd).
  assert (page (commit s) ≠ page s) as Hpage.
  { intros Hpage. apply not_true_iff_false in Hs1. apply Hs1, stable_spec.
    by rewrite Hq, Hd, Hpage. }
  destruct (changed (reset_deps s) (debouncedQuery s)) eqn:Hreset;
    [|congruence].
  apply changed_true in Hreset. do 3 (split; [congruence|]).
  apply changed_true. rewrite Hfd, Hd. congruence.
Qed.

Lemma supersede_same s st :
  cleanup s = cleanup st → controllers s = controllers st →
  controllers (supersede s) = controllers (supersede st)
  ∧ supersedes s = supersedes st.
Proof.
  intros Hc Hk. unfold supersede, supersedes, fetch_cleanup, rejected.
  rewrite Hc, Hk. destruct (cleanup st) as [c|]; [|done]. cbn.
  rewrite list_lookup_alter_eq.
  by destruct (controllers st !! c) as [[ab [u|] []]|].
Qed.

(** A pending request is superseded exactly where a request is in
    flight. *)
Lemma supersedes_spec st :
  reachable st → supersedes st = true ↔ ∃ c, in_flight st c.
Proof.
  intros Hr. destruct (reachable_single _ Hr) as [Hone _].
  destruct (reachable_requests _ Hr) as (HA & _).
  unfold supersedes. split.
  - destruct (cleanup st) as [c|]; [|done].
    destruct (controllers st !! c) as [[ab [u|] []]|] eqn:Hc; try done.
    intros _. exists c. apply HA. by exists ab, u.
  - intros [c Hc]. destruct (Hone c Hc) as [-> _]. by destruct Hc as [u ->].
Qed.

Lemma supersedes_idle st : reachable st → supersedes st = false ↔ idle st.
Proof.
  intros Hr. rewrite <- not_true_iff_false, (supersedes_spec st Hr).
  split; [intros Hn c Hc; apply Hn; by exists c|by intros Hi [c Hc%Hi]].
Qed.

(** ** A change of page *)

(** What a change of page to [p] does: one render, in which the fetch
    effect runs. *)
Lemma page_change st p :
  reachable st → p ≠ page st →
  let st' := rerender (update (setPage p) st) in
  controllers st'
  = controllers (supersede st) ++ new_controller (debouncedQuery st) p
  ∧ loading st'
    = (if supersedes st then false
       else loading (fetch_effect_cells (debouncedQuery st) st))
  ∧ error st' = error (fetch_effect_cells (debouncedQuery st) st)
  ∧ results st' = results (fetch_effect_cells (debouncedQuery st) st)
  ∧ numFound st' = numFound (fetch_effect_cells (debouncedQuery st) st)
  ∧ page st' = p ∧ debouncedQuery st' = debouncedQuery st.
Proof.
  intros Hr Hp st'. subst st'.
  pose proof (reachable_stable _ Hr) as Hs.
  apply stable_spec in Hs as (Hd & Hrd & Hfd).
  set (s0 := update (setPage p) st).
  assert (changed (fetch_deps s0) (debouncedQuery s0, page s0) = true) as Hf.
  { apply changed_true. cbn. rewrite Hfd. congruence. }
  assert (stable s0 = false) as Hs0.
  { unfold stable. by rewrite Hf, orb_true_r. }
  destruct (rerender_cells s0) as (_ & Hdq & _).
  rewrite rerender_page, Hdq by done.
  destruct (rerender_commits s0 Hs0) as [[-> _]|(_ & _ & Hreset & _)];
    [|done].
  destruct (commit_refetch s0 Hf) as (-> & _ & -> & -> & -> & ->).
  destruct (supersede_same s0 st) as [-> ->]; [done..|].
  destruct (fetch_effect_cells_setPage (debouncedQuery st) p st)
    as (Hl & He & Hres & Hn).
  change (debouncedQuery s0) with (debouncedQuery st) in *.
  change (hooks s0) with (setPage p st).
  rewrite Hl, He, Hres, Hn. by repeat split.
Qed.

Lemma onPrev_changes (s : cells) : page s ≠ 1 → page (onPrev s) ≠ page s.
Proof. unfold onPrev. cbn. lia. Qed.

Lemma onNext_changes (s : cells) :
  page s ≠ totalPages s → totalPages s ≠ 0 → page (onNext s) ≠ page s.
Proof.
  unfold onNext. cbn. destruct (Z.eqb_spec (totalPages s) 0); lia.
Qed.

(** X10: A click on an enabled Prev or Next button, for a query that is not
    empty and that [encodeURIComponent] accepts, makes exactly one
    request, for the new page of the same query, and aborts the request
    that was in flight, which rejects. The error is cleared and the
    results on screen stay until the answer comes. [loading] is set only
    if no request was in flight: the rejection of the aborted request
    clears it after the new call of [fetchBooks] has set it. *)
Theorem page_click_requests_new_page st e q :
  reachable st →
  (e = Prev ∧ page st ≠ 1
   ∨ e = Next ∧ page st ≠ totalPages st ∧ totalPages st ≠ 0) →
  debouncedQuery st ≠ [] → encodeURIComponent (debouncedQuery st) = Some q →
  let st' := step st e in
  let u := "https://openlibrary.org/search.json?title=" +:+ q
           +:+ "&limit=20&offset=" +:+ show ((page st' - 1) * 20) in
  map url (controllers st') = map url (controllers st) ++ [Some u]
  ∧ controllers st' !! length (controllers st)
    = Some (Controller false (Some u) false)
  ∧ (∀ c u0, controllers st !! c = Some (Controller false (Some u0) false) →
       controllers st' !! c = Some (Controller true (Some u0) true))
  ∧ page st' ≠ page st
  ∧ debouncedQuery st' = debouncedQuery st
  ∧ (loading st' = true ↔ idle st)
  ∧ error st' = None
  ∧ results st' = results st ∧ numFound st' = numFound st.
Proof.
  intros Hr He Hd Hq st'. subst st'.
  assert (∃ p, p ≠ page st ∧ step st e = rerender (update (setPage p) st))
    as (p & Hp & ->).
  { destruct He as [[-> Hp]|(-> & Hp & Ht)].
    - exists (page (onPrev st)). split; [by apply onPrev_changes|].
      rewrite step_Prev.
      by destruct (prev_disabled st) eqn:Hdis;
        [apply prev_disabled_spec in Hdis|].
    - exists (page (onNext st)). split; [by apply onNext_changes|].
      rewrite step_Next.
      destruct (next_disabled st) eqn:Hdis;
        [apply next_disabled_spec in Hdis; tauto|done]. }
  destruct (page_change st p Hr Hp) as (Hk & Hl & Her & Hres & Hn & Hpage & Hdq).
  cbn zeta in *. rewrite Hk, Hl, Her, Hres, Hn, Hpage, Hdq.
  unfold new_controller, fetch_effect_cells.
  destruct (debouncedQuery st) as [|c0 d] eqn:Hdq0; [done|]. cbn [falsy].
  rewrite Hq. cbn [fmap option_fmap option_map].
  split; [by rewrite map_app, url_supersede|].
  split.
  { by rewrite lookup_app_r, supersede_length, Nat.sub_diag
      by (by rewrite supersede_length). }
  split.
  { intros c u0 Hu0. destruct (reachable_single _ Hr) as [Hone _].
    destruct (Hone c) as [Hc _]; [by exists u0|].
    destruct (supersede_in_flight st c u0 Hc Hu0) as [_ Hlook].
    rewrite lookup_app_l; [done|].
    rewrite supersede_length. by apply lookup_lt_Some in Hu0. }
  do 2 (split; [done|]). split; [|done].
  rewrite <- (supersedes_idle st Hr). by destruct (supersedes st).
Qed.

Lemma page_click_requests_new_page_witness :
  let st' := step Sample.second_page Prev in
  in_flight Sample.second_page 1
  ∧ controllers st' !! 2%nat
    = Some (Controller false
              (Some "https://openlibrary.org/search.json?title=Dune&limit=20&offset=0")
              false)
  ∧ loading st' ≠ true
  ∧ results st' = results Sample.second_page.
Proof.
  intros st'.
  assert (in_flight Sample.second_page 1) as Hc
    by (apply in_flightb_true; vm_compute; reflexivity).
  destruct (page_click_requests_new_page Sample.second_page Prev "Dune")
    as (_ & Hk & _ & _ & _ & Hl & _ & Hres & _).
  - apply reachable_run, reachable_run, reachable_mounted.
  - left. split; [reflexivity|]. vm_compute. discriminate.
  - vm_compute. discriminate.
  - vm_compute. reflexivity.
  - split; [exact Hc|]. split; [|split; [|exact Hres]].
    + etransitivity; [exact Hk|]. vm_compute. reflexivity.
    + intros Hload. apply Hl in Hload. exact (Hload 1%nat Hc).
Defined.

Lemma flush_numFound fuel (st : App) :
  debouncedQuery st ≠ [] → numFound (flush fuel st) = numFound st.
Proof.
  intros H.
  apply (flush_preserves (λ s, numFound s) (λ s, debouncedQuery s ≠ []));
    [|done].
  intros s Hs. destruct (commit_deps s) as (_ & Hd & _).
  split; [by rewrite Hd|]. by destruct (commit_numFound s) as [?|[? _]].
Qed.

(** X11: Inside the range of pages Prev undoes Next and Next undoes Prev. *)
Theorem prev_next_round_trip st :
  reachable st →
  (1 ≤ page st < totalPages st → page (run st [Next; Prev]) = page st)
  ∧ (1 < page st ≤ totalPages st → page (run st [Prev; Next]) = page st).
Proof.
  intros Hr. pose proof (reachable_stable _ Hr) as Hs.
  apply stable_spec in Hs as (_ & Hrd & _). split; intros Hp; cbn [run foldl].
  - assert (page (step st Next) = page st + 1) as Hp1.
    { rewrite step_Next.
      destruct (next_disabled st) eqn:Hdis;
        [apply next_disabled_spec in Hdis; lia|].
      rewrite rerender_page by done. cbn.
      destruct (Z.eqb_spec (totalPages st) 0); lia. }
    assert (reachable (step st Next)) as Hr1 by (by constructor).
    pose proof (reachable_stable _ Hr1) as Hs1.
    apply stable_spec in Hs1 as (_ & Hrd1 & _).
    rewrite step_Prev.
    destruct (prev_disabled (step st Next)) eqn:Hdis;
      [apply prev_disabled_spec in Hdis; lia|].
    rewrite rerender_page by done. cbn [page update onPrev setPage hooks]. lia.
  - assert (debouncedQuery st ≠ []) as Hd.
    { intros Hd. destruct (reachable_empty_screen _ Hr Hd) as [_ ?]. lia. }
    assert (page (step st Prev) = page st - 1
            ∧ numFound (step st Prev) = numFound st) as [Hp1 Hn1].
    { rewrite step_Prev.
      destruct (prev_disabled st) eqn:Hdis;
        [apply prev_disabled_spec in Hdis; lia|].
      rewrite rerender_page by done. unfold rerender.
      rewrite flush_numFound by done. cbn. split; [lia|done]. }
    assert (reachable (step st Prev)) as Hr1 by (by constructor).
    pose proof (reachable_stable _ Hr1) as Hs1.
    apply stable_spec in Hs1 as (_ & Hrd1 & _).
    assert (totalPages (step st Prev) = totalPages st) as Ht
      by (unfold totalPages; by rewrite Hn1).
    rewrite step_Next.
    destruct (next_disabled (step st Prev)) eqn:Hdis;
      [apply next_disabled_spec in Hdis; lia|].
    rewrite rerender_page by done. unfold onNext. cbn [page update setPage hooks].
    rewrite Ht, Hp1. destruct (Z.eqb_spec (totalPages st) 0); lia.
Qed.

Lemma prev_next_round_trip_witness :
  page (run Sample.first_page [Next; Prev]) = 1
  ∧ page (run Sample.second_page [Prev; Next]) = 2.
Proof.
  split.
  - refine (proj1 (prev_next_round_trip Sample.first_page _) _).
    + apply reachable_run, reachable_mounted.
    + vm_compute. split; [discriminate|reflexivity].
  - refine (proj2 (prev_next_round_trip Sample.second_page _) _).
    + apply reachable_run, reachable_run, reachable_mounted.
    + vm_compute. split; [reflexivity|discriminate].
Defined.

(** ** What is shown once a request has settled *)

(** X13: A 2xx answer without any record, to the request in flight, brings up
    the line "No results found.": nothing is loading, there are no
    results, the query is not empty and no error is shown. *)
Theorem empty_response_shows_no_results st c status docs n :
  reachable st → in_flight st c → 200 ≤ status ≤ 299 →
  default [] docs = [] →
  let st' := step st (Settle c (Response status (inr (DObj docs n)))) in
  no_results_shown st' = true ∧ error_banner st' = None.
Proof.
  intros Hr Hc Hs Hdocs st'. subst st'.
  pose proof Hc as [u Hu].
  destruct (reachable_requests _ Hr) as (_ & HR & _).
  destruct (HR c u Hu) as (d & p & q & Hf & Hd & _).
  destruct (reachable_single _ Hr) as [Hone _]. destruct (Hone c Hc) as [_ He].
  pose proof (reachable_stable _ Hr) as Hst.
  apply stable_spec in Hst as (_ & _ & Hf'). rewrite Hf' in Hf.
  injection Hf as <- <-.
  unfold no_results_shown, error_banner.
  rewrite (settle_in_flight st c _ (reachable_stable _ Hr) Hc).
  rewrite resume_success by done. rewrite Hdocs. cbn. rewrite He.
  by destruct (debouncedQuery st).
Qed.

Lemma empty_response_shows_no_results_witness :
  no_results_shown
    (step Sample.second_page (Settle 1 (Response 200 (inr (DObj (Some []) (Some 0))))))
  = true.
Proof.
  refine (proj1 (empty_response_shows_no_results Sample.second_page 1 200
                   (Some []) (Some 0) _ _ _ _)).
  - apply reachable_run, reachable_run, reachable_mounted.
  - apply in_flightb_true. vm_compute. reflexivity.
  - lia.
  - reflexivity.
Defined.

(** X14: A failure of the request in flight, other than a cancellation, with a
    message that is not empty, brings up the error banner with that
    message, and not the line "No results found.". *)
Theorem failure_shows_banner st c o err :
  reachable st → in_flight st c →
  request_failure o err → name err ≠ "AbortError" → message err ≠ "" →
  error_banner (step st (Settle c o)) = Some (message err)
  ∧ no_results_shown (step st (Settle c o)) = false.
Proof.
  intros Hr Hc Hf Hn Hm.
  unfold no_results_shown, error_banner.
  rewrite (settle_in_flight st c o (reachable_stable _ Hr) Hc).
  rewrite (resume_failure _ _ _ Hf Hn).
  cbn [error setLoading setError loading results debouncedQuery].
  apply String.eqb_neq in Hm. rewrite Hm. split; [done|].
  rewrite (bool_decide_eq_false_2 (Some (message err) = None)) by done.
  by rewrite andb_false_r.
Qed.

Lemma failure_shows_banner_witness :
  error_banner (step Sample.second_page (Settle 1 (Rejected (Exn "TypeError" "Failed to fetch"))))
  = Some "Failed to fetch".
Proof.
  refine (proj1 (failure_shows_banner Sample.second_page 1 _
                   (Exn "TypeError" "Failed to fetch") _ _ _ _ _)).
  - apply reachable_run, reachable_run, reachable_mounted.
  - apply in_flightb_true. vm_compute. reflexivity.
  - constructor.
  - discriminate.
  - discriminate.
Defined.

(** ** Teardown *)

(** X12: Teardown cancels the pending timeout and aborts the request in
    flight, and writes no cell: afterwards no request is in flight, no
    request has been added, and however long one waits no timer callback
    runs. *)
Theorem unmount_cancels st :
  reachable st →
  idle (unmount st)
  ∧ hooks (unmount st) = hooks st
  ∧ map url (controllers (unmount st)) = map url (controllers st)
  ∧ ∀ ms, emitted (step (unmount st) (Wait ms)) = emitted st
          ∧ hooks (step (unmount st) (Wait ms)) = hooks st.
Proof.
  intros Hr. unfold unmount.
  destruct (useDebounced_cleanup_spec st) as [ts Hts].
  split; [|split; [|split]].
  - apply fetch_cleanup_idle. rewrite Hts.
    apply (same_requests_single st); [done|]. by apply reachable_single.
  - by rewrite fetch_cleanup_cells, Hts.
  - by rewrite url_fetch_cleanup, Hts.
  - intros ms. cbn [step]. rewrite run_timers_none.
    + cbn [emitted hooks at_time].
      by rewrite (frame_emitted _ _ (fetch_cleanup_frame _)),
        fetch_cleanup_cells, Hts.
    + rewrite (frame_timeouts _ _ (fetch_cleanup_frame _)).
      apply next_timeout_None. intros j t.
      apply useDebounced_cleanup_dead.
      intros id t' Hid Hl. by destruct (proj1 (reachable_timer _ Hr) id t' Hid Hl).
Qed.

Lemma unmount_cancels_witness :
  in_flight Sample.second_page 1 ∧ idle (unmount Sample.second_page).
Proof.
  split; [apply in_flightb_true; vm_compute; reflexivity|].
  apply unmount_cancels. apply reachable_run, reachable_run, reachable_mounted.
Defined.

(** ** Renders come to an end *)

(** X15: However the cells were set, no effect is due after two renders: the
    effects never keep the component rendering. *)
Theorem two_renders_suffice st f :
  stable (commit (commit (update f st))) = true
  ∧ stable (rerender (update f st)) = true.
Proof. split; [apply commit_twice_stable|apply rerender_stable]. Qed.


(** ** A new debounced query *)

Lemma fetch_effect_cells_setV d x (s : cells) :
  loading (fetch_effect_cells d (setV x s)) = loading (fetch_effect_cells d s)
  ∧ error (fetch_effect_cells d (setV x s)) = error (fetch_effect_cells d s)
  ∧ results (fetch_effect_cells d (setV x s)) = results (fetch_effect_cells d s)
  ∧ numFound (fetch_effect_cells d (setV x s))
    = numFound (fetch_effect_cells d s).
Proof.
  unfold fetch_effect_cells. destruct (falsy d); [done|].
  by destruct (encodeURIComponent d).
Qed.

(** The renders after the timer has given the debounced query a new
    value: in the first the page-reset effect and the fetch effect run,
    for the page that was on screen; a second follows when that page was
    not the first, in which the fetch effect runs again, for page 1. *)
Lemma new_query st d value s :
  reachable st → fired st d value s → value ≠ debouncedQuery st →
  let s1 := commit s in
  controllers s1 = controllers (supersede st) ++ new_controller value (page st)
  ∧ cleanup s1 = (if falsy value then None else Some (length (controllers st)))
  ∧ loading s1
    = (if supersedes st then false else loading (fetch_effect_cells value st))
  ∧ error s1 = error (fetch_effect_cells value st)
  ∧ results s1 = results (fetch_effect_cells value st)
  ∧ numFound s1 = numFound (fetch_effect_cells value st)
  ∧ page s1 = 1 ∧ debouncedQuery s1 = value
  ∧ (page st = 1 → rerender s = s1)
  ∧ (page st ≠ 1 →
     rerender s = commit s1
     ∧ controllers (commit s1)
       = controllers (supersede s1) ++ new_controller value 1
     ∧ cleanup (commit s1)
       = (if falsy value then None else Some (length (controllers s1)))
     ∧ loading (commit s1)
       = (if supersedes s1 then false
          else loading (fetch_effect_cells value s1))
     ∧ error (commit s1) = error (fetch_effect_cells value s1)
     ∧ results (commit s1) = results (fetch_effect_cells value s1)
     ∧ numFound (commit s1) = numFound (fetch_effect_cells value s1)
     ∧ page (commit s1) = 1 ∧ debouncedQuery (commit s1) = value).
Proof.
  intros Hr (Hh & Hdd & Hrd & Hfd & Hc & Hk & _) Hv s1. subst s1.
  pose proof (reachable_stable _ Hr) as Hs.
  apply stable_spec in Hs as (Hsd & Hsr & Hsf).
  assert (debouncedQuery s = value) as Hdq by (by rewrite Hh).
  assert (page s = page st) as Hpage by (by rewrite Hh).
  assert (reset_deps s ≠ Some (debouncedQuery s)) as Hreset
    by (rewrite Hrd, Hsr, Hdq; congruence).
  assert (changed (fetch_deps s) (debouncedQuery s, page s) = true) as Hf.
  { apply changed_true. rewrite Hfd, Hsf, Hdq. congruence. }
  assert (stable s = false) as Hs0.
  { unfold stable. by rewrite Hf, orb_true_r. }
  destruct (commit_deps s) as (Hq1 & Hd1 & Hp1 & Hdd1 & Hrd1 & Hfd1).
  assert (page (commit s) = 1) as Hp1'.
  { rewrite Hp1. apply changed_true in Hreset. by rewrite Hreset. }
  destruct (commit_refetch s Hf) as (Hk1 & Hc1 & Hl1 & He1 & Hres1 & Hn1).
  destruct (supersede_same s st Hc Hk) as [Hsup Hsups].
  rewrite Hsup, Hdq, Hpage in Hk1. rewrite Hdq, Hk in Hc1.
  rewrite Hsups, Hdq, Hh in Hl1. rewrite Hdq, Hh in He1, Hres1, Hn1.
  destruct (fetch_effect_cells_setV value value st) as (El & Ee & Eres & En).
  rewrite El in Hl1. rewrite Ee in He1. rewrite Eres in Hres1. rewrite En in Hn1.
  rewrite Hdq in Hd1.
  do 8 (split; [done|]).
  destruct (rerender_commits s Hs0) as [[-> Hst]|(-> & Hst & _ & Hne & _ & Hf2)].
  - split; [done|]. intros Hne. apply stable_spec in Hst as (_ & _ & Hst).
    rewrite Hfd1, Hd1, Hp1', Hpage in Hst. congruence.
  - split; [by rewrite Hpage in Hne|]. intros _. split; [done|].
    destruct (commit_refetch (commit s) Hf2) as (-> & -> & -> & -> & -> & ->).
    destruct (commit_deps (commit s)) as (_ & -> & -> & _).
    rewrite Hd1, Hp1'. repeat split.
    by destruct (changed (reset_deps (commit s)) value).
Qed.

(** X16: When the debounced query takes a new value that is not empty, the
    request made first for it asks for the page that was on screen, and is
    aborted at once, so that it rejects, unless that page was the first.
    The request made last asks for page 1, and the page is 1
    afterwards. *)
Lemma first_request_for_new_query st due value ms q :
  reachable st → timer st = Some (due, value) → (due ≤ now st + ms)%nat →
  value ≠ debouncedQuery st → value ≠ [] → encodeURIComponent value = Some q →
  controllers (step st (Wait ms)) !! length (controllers st)
  = Some (Controller (bool_decide (page st ≠ 1))
            (Some (search_url q ((page st - 1) * perPage)))
            (bool_decide (page st ≠ 1)))
  ∧ list.last (controllers (step st (Wait ms)))
    = Some (Controller false (Some (search_url q 0)) false)
  ∧ page (step st (Wait ms)) = 1.
Proof.
  intros Hr Ht Hdue Hv Hne Hq.
  destruct (wait_fire st due value ms Hr Ht Hdue) as (_ & s & Hfired & ->).
  change (controllers (at_time ?n ?s)) with (controllers s).
  change (hooks (at_time ?n ?s)) with (hooks s).
  destruct (new_query st due value s Hr Hfired Hv)
    as (Hk1 & Hc1 & _ & _ & _ & _ & Hp1 & _ & Hone & Htwo).
  cbn zeta in *.
  assert (new_controller value (page st)
          = [Controller false (Some (search_url q ((page st - 1) * perPage)))
               false]) as Hnew.
  { unfold new_controller. destruct value; [done|]. cbn [falsy]. by rewrite Hq. }
  assert (new_controller value 1
          = [Controller false (Some (search_url q 0)) false]) as Hnew1.
  { unfold new_controller. destruct value; [done|]. cbn [falsy]. by rewrite Hq. }
  assert (falsy value = false) as Hfalsy by (by destruct value).
  rewrite Hnew, Hfalsy in *.
  destruct (decide (page st = 1)) as [Hpage|Hpage].
  - rewrite (Hone Hpage), Hk1. rewrite bool_decide_eq_false_2 by tauto.
    split; [|split; [|done]].
    + by rewrite lookup_app_r, supersede_length, Nat.sub_diag
        by (by rewrite supersede_length).
    + by rewrite last_snoc, Hpage.
  - destruct (Htwo Hpage) as (-> & Hk2 & _ & _ & _ & _ & _ & Hp2 & _).
    rewrite bool_decide_eq_true_2 by done. rewrite Hk2, Hnew1.
    split; [|split; [|done]]; [|by rewrite last_snoc].
    assert (controllers (commit s) !! length (controllers st)
            = Some (Controller false
                      (Some (search_url q ((page st - 1) * perPage))) false))
      as Hlook.
    { by rewrite Hk1, lookup_app_r, supersede_length, Nat.sub_diag
        by (by rewrite supersede_length). }
    destruct (supersede_in_flight (commit s) _ _ Hc1 Hlook) as [_ Hsup].
    rewrite lookup_app_l; [done|].
    rewrite supersede_length. by apply lookup_lt_Some in Hlook.
Qed.

Lemma first_request_for_new_query_witness :
  controllers (step Scenario.retyped (Wait 450)) !! 2%nat
  = Some (Controller true
            (Some "https://openlibrary.org/search.json?title=Emma&limit=20&offset=20")
            true)
  ∧ page (step Scenario.retyped (Wait 450)) = 1.
Proof.
  destruct (first_request_for_new_query Scenario.retyped 900 Sample.emma 450 "Emma")
    as (Hfirst & _ & Hp).
  - apply reachable_run, reachable_run, reachable_run, reachable_mounted.
  - vm_compute. reflexivity.
  - vm_compute. lia.
  - vm_compute. discriminate.
  - vm_compute. discriminate.
  - vm_compute. reflexivity.
  - split; [|exact Hp]. etransitivity; [exact Hfirst|]. vm_compute. reflexivity.
Defined.

(** ** Supersession, in general *)

Lemma fired_single st d value s :
  single_request st → fired st d value s → single_request s.
Proof.
  intros HJ (Hh & _ & _ & _ & Hc & Hk & _).
  apply (same_requests_single st); [|done].
  split; [done|]. split; [done|]. by rewrite Hh.
Qed.

(** The callback of the timer changes nothing when the debounced query
    is the raw query already. *)
Lemma fired_same st d s :
  reachable st → fired st d (debouncedQuery st) s →
  rerender s = s ∧ hooks s = hooks st.
Proof.
  intros Hr (Hh & Hdd & Hrd & Hfd & _).
  assert (hooks s = hooks st) as Hsame by (rewrite Hh; by destruct st as [[]]).
  split; [|done]. apply rerender_id.
  pose proof (reachable_stable _ Hr) as Hs.
  apply stable_spec in Hs. apply stable_spec.
  by rewrite Hsame, Hdd, Hrd, Hfd.
Qed.

(** X17: When an event supersedes the request in flight (the debounced query
    takes a new value, or the page changes), that request is aborted and
    rejects at once: after the event it has settled, and [loading] is
    cleared, also when the event has made a new request, which is then in
    flight. What the network answers to the superseded request later
    changes nothing. *)
Lemma superseded_request_rejects st e c u :
  reachable st →
  controllers st !! c = Some (Controller false (Some u) false) →
  (∀ o, e ≠ Settle c o) → ¬ in_flight (step st e) c →
  controllers (step st e) !! c = Some (Controller true (Some u) true)
  ∧ loading (step st e) = false
  ∧ ∀ o, step (step st e) (Settle c o) = step st e.
Proof.
  intros Hr Hu He Hgone.
  enough (controllers (step st e) !! c = Some (Controller true (Some u) true)
          ∧ loading (step st e) = false) as [Hk Hl].
  { split; [done|]. split; [done|]. intros o. by apply settle_not_in_flight. }
  assert (in_flight st c) as Hc by (by exists u).
  destruct (reachable_single _ Hr) as [Hone Hlt].
  destruct (Hone c Hc) as [Hcl _].
  destruct (supersede_in_flight st c u Hcl Hu) as [Hsup Hlook].
  assert (c < length (controllers (supersede st)))%nat as Hlen
    by (by apply lookup_lt_Some in Hlook).
  assert (∀ st', controllers st' = controllers st → in_flight st' c) as Hsame
    by (intros st' Hk; exists u; by rewrite Hk).
  assert (∀ value, ¬ in_flight (step st (Change value)) c → False) as Hkey.
  { intros value Hgone'. destruct (decide (value = query st)) as [->|Hv].
    - by rewrite change_same in Hgone' by (by apply reachable_stable).
    - apply Hgone', Hsame. by apply keystroke. }
  assert (∀ p, p ≠ page st →
            controllers (rerender (update (setPage p) st)) !! c
            = Some (Controller true (Some u) true)
            ∧ loading (rerender (update (setPage p) st)) = false) as Hpage.
  { intros p Hp. destruct (page_change st p Hr Hp) as (-> & -> & _).
    by rewrite Hsup, lookup_app_l. }
  destruct e as [value| | | |ms|c' o].
  - (* a keystroke makes no request *)
    destruct (Hkey value Hgone).
  - destruct (Hkey [] Hgone).
  - (* the page changes *)
    rewrite step_Prev in *. destruct (prev_disabled st) eqn:Hdis; [done|].
    apply (Hpage (page (onPrev st))), onPrev_changes.
    by rewrite <- prev_disabled_spec, Hdis.
  - rewrite step_Next in *. destruct (next_disabled st) eqn:Hdis; [done|].
    assert (¬ (page st = totalPages st ∨ totalPages st = 0)) as Hen
      by (by rewrite <- next_disabled_spec, Hdis).
    apply (Hpage (page (onNext st))), onNext_changes; tauto.
  - (* the timer gives the debounced query a new value *)
    destruct (wait_cases st ms Hr) as [[_ Heq]|(d & s & Ht & Hd & Hs & Heq)];
      rewrite Heq in Hgone |- *; [by destruct Hgone; apply Hsame|].
    change (controllers (at_time ?n ?s)) with (controllers s).
    change (hooks (at_time ?n ?s)) with (hooks s).
    destruct (decide (query st = debouncedQuery st)) as [Hq|Hq].
    { rewrite Hq in Hs. destruct (fired_same st d s Hr Hs) as [Hid _].
      rewrite Hid in Hgone. destruct Hgone. apply Hsame, Hs. }
    destruct (new_query st d (query st) s Hr Hs Hq)
      as (Hk1 & Hc1 & Hl1 & _ & _ & _ & _ & _ & Hpage1 & Hpage2).
    cbn zeta in *. rewrite Hsup in Hl1.
    assert (controllers (commit s) !! c
            = Some (Controller true (Some u) true)) as Hlook1
      by (by rewrite Hk1, lookup_app_l).
    destruct (decide (page st = 1)) as [Hp1|Hp1]; [by rewrite (Hpage1 Hp1)|].
    destruct (Hpage2 Hp1) as (-> & Hk2 & _ & Hl2 & _). split.
    + (* the second render leaves the superseded request alone *)
      rewrite Hk2, lookup_app_l
        by (rewrite supersede_length; by apply lookup_lt_Some in Hlook1).
      rewrite supersede_other; [done|]. rewrite Hc1.
      destruct (falsy (query st)); [done|].
      intros [= <-]. apply lookup_lt_Some in Hu. lia.
    + (* and supersedes the request of the first, if it made one *)
      rewrite Hl2. destruct (supersedes (commit s)) eqn:Hs2; [done|].
      unfold fetch_effect_cells.
      destruct (falsy (query st)) eqn:Hfalsy; [exact Hl1|].
      destruct (encodeURIComponent (query st)) as [q|] eqn:Hq'; [|done].
      exfalso.
      destruct (supersede_in_flight (commit s) (length (controllers st))
                  (search_url q ((page st - 1) * perPage))) as [Hs2' _];
        [done| |congruence].
      rewrite Hk1, lookup_app_r, supersede_length, Nat.sub_diag
        by (by rewrite supersede_length).
      unfold new_controller. by rewrite Hfalsy, Hq'.
  - (* no other request is there to settle *)
    destruct (decide (c' = c)) as [->|Hne]; [by destruct (He o)|].
    rewrite settle_not_in_flight in Hgone; [done|].
    intros Hc'. destruct (Hone c' Hc'). congruence.
Qed.

Lemma superseded_request_rejects_witness :
  controllers (step Sample.second_page Next) !! 1%nat
  = Some (Controller true
            (Some "https://openlibrary.org/search.json?title=Dune&limit=20&offset=20")
            true)
  ∧ loading (step Sample.second_page Next) = false.
Proof.
  destruct (superseded_request_rejects Sample.second_page Next 1
              "https://openlibrary.org/search.json?title=Dune&limit=20&offset=20")
    as (Hk & Hl & _).
  - apply reachable_run, reachable_run, reachable_mounted.
  - vm_compute. reflexivity.
  - discriminate.
  - rewrite <- in_flightb_true. vm_compute. discriminate.
  - split; [exact Hk|exact Hl].
Defined.

(** ** [encodeURIComponent] *)

Lemma unreserved_spec c :
  unreserved c = true ↔
  (65 ≤ c ≤ 90 ∨ 97 ≤ c ≤ 122 ∨ 48 ≤ c ≤ 57
   ∨ c ∈ [45; 95; 46; 33; 126; 42; 39; 40; 41])%N.
Proof.
  unfold unreserved.
  rewrite !orb_true_iff, !andb_true_iff, !N.leb_le, bool_decide_eq_true. tauto.
Qed.

Lemma unreserved_bound c : unreserved c = true → (c < 127 ∧ c ≠ 37)%N.
Proof.
  rewrite unreserved_spec, !elem_of_cons, elem_of_nil. lia.
Qed.

Lemma unreserved_not_surrogate c :
  unreserved c = true → is_lead c = false ∧ is_trail c = false.
Proof.
  intros [H _]%unreserved_bound. unfold is_lead, is_trail.
  rewrite !andb_false_iff, !N.leb_gt. lia.
Qed.

Lemma url_safe_unreserved c :
  unreserved c = true → url_safe (Ascii.ascii_of_N c) = true.
Proof.
  intros Hc. unfold url_safe.
  rewrite Ascii.N_ascii_embedding by (apply unreserved_bound in Hc; lia).
  by rewrite Hc.
Qed.

Lemma hex_digit_safe d : (d < 16)%N → url_safe (hex_digit d) = true.
Proof.
  intros Hd. unfold hex_digit. apply url_safe_unreserved, unreserved_spec.
  destruct (N.ltb_spec d 10); lia.
Qed.

Lemma safe_string_cons a s :
  url_safe a = true → safe_string s → safe_string (String a s).
Proof. intros Ha Hs. by apply List.Forall_cons. Qed.

Lemma percent_safe octet rest :
  (octet < 256)%N → safe_string rest → safe_string (percent octet rest).
Proof.
  intros Ho Hs. unfold percent.
  apply safe_string_cons; [reflexivity|].
  apply safe_string_cons; [apply hex_digit_safe; lia|].
  apply safe_string_cons; [apply hex_digit_safe; lia|done].
Qed.

Lemma utf8_octets cp : (cp < 1114112)%N → Forall (λ o, (o < 256)%N) (utf8 cp).
Proof.
  intros Hcp. unfold utf8.
  destruct (N.ltb_spec cp 128); [|destruct (N.ltb_spec cp 2048);
    [|destruct (N.ltb_spec cp 65536)]];
    repeat (apply List.Forall_cons; [lia|]); apply List.Forall_nil.
Qed.

Lemma escape_safe cp rest :
  (cp < 1114112)%N → safe_string rest → safe_string (escape cp rest).
Proof.
  intros Hcp Hs. unfold escape.
  induction (utf8_octets cp Hcp) as [|o os Ho _ IH]; [done|].
  cbn [foldr]. by apply percent_safe.
Qed.

Lemma encodeURIComponent_safe_upto n : ∀ d q,
  (length d ≤ n)%nat → code_units d →
  encodeURIComponent d = Some q → safe_string q.
Proof.
  induction n as [|n IH]; intros d q Hlen Hd Hq.
  { destruct d; [|cbn in Hlen; lia]. injection Hq as <-. apply List.Forall_nil. }
  destruct d as [|c d]; [injection Hq as <-; apply List.Forall_nil|].
  inversion_clear Hd as [|? ? Hc Hd']. cbn in Hlen.
  cbn [encodeURIComponent] in Hq.
  destruct (unreserved c) eqn:Hu.
  { destruct (encodeURIComponent d) as [q'|] eqn:Hq'; [|done].
    injection Hq as <-. apply safe_string_cons; [by apply url_safe_unreserved|].
    apply (IH d); [lia|done..]. }
  destruct (is_trail c); [done|].
  destruct (is_lead c) eqn:Hl.
  - destruct d as [|c2 d]; [done|]. inversion_clear Hd' as [|? ? Hc2 Hd''].
    destruct (is_trail c2) eqn:Ht; [|done]. cbn in Hlen.
    destruct (encodeURIComponent d) as [q'|] eqn:Hq'; [|done].
    injection Hq as <-. apply escape_safe; [|apply (IH d); [lia|done..]].
    unfold is_lead, is_trail in *.
    rewrite andb_true_iff, !N.leb_le in Hl, Ht. lia.
  - destruct (encodeURIComponent d) as [q'|] eqn:Hq'; [|done].
    injection Hq as <-. apply escape_safe; [lia|apply (IH d); [lia|done..]].
Qed.

(** X18: Whatever the query, its encoding holds none but unreserved
    characters and percent signs: no [&], [=], [#], [?], [/] or space of
    the query reaches the URL, so that the query cannot add or override a
    parameter of the request. *)
Theorem encodeURIComponent_safe d q :
  code_units d → encodeURIComponent d = Some q →
  safe_string q
  ∧ ∀ a, a ∈ String.list_ascii_of_string "&=#?/ +" →
         a ∉ String.list_ascii_of_string q.
Proof.
  intros Hd Hq.
  assert (safe_string q) as Hs
    by (by apply (encodeURIComponent_safe_upto (length d) d)).
  split; [done|]. intros a Ha Hin.
  unfold safe_string in Hs. rewrite List.Forall_forall in Hs.
  apply list_elem_of_In, Hs in Hin.
  cbn in Ha. rewrite !elem_of_cons, elem_of_nil in Ha.
  destruct Ha as [->|[->|[->|[->|[->|[->|[->|[]]]]]]]]; discriminate.
Qed.

Lemma encodeURIComponent_safe_witness :
  encodeURIComponent (of_string "a&limit=1") = Some "a%26limit%3D1"
  ∧ safe_string "a%26limit%3D1".
Proof.
  split; [reflexivity|].
  refine (proj1 (encodeURIComponent_safe (of_string "a&limit=1") _ _ _)).
  - unfold code_units. repeat (apply List.Forall_cons; [reflexivity|]).
    apply List.Forall_nil.
  - reflexivity.
Defined.

(** X19: A query made of unreserved characters only (letters, digits and
    [- _ . ! ~ * ' ( )]) is sent as it is. *)
Theorem encodeURIComponent_plain d :
  Forall (λ c, unreserved c = true) d →
  encodeURIComponent d
  = Some (String.string_of_list_ascii (map Ascii.ascii_of_N d)).
Proof.
  induction 1 as [|c d Hc _ IH]; [done|].
  cbn [encodeURIComponent]. by rewrite Hc, IH.
Qed.

Lemma encodeURIComponent_plain_witness :
  encodeURIComponent (of_string "Dune") = Some "Dune".
Proof.
  apply (encodeURIComponent_plain (of_string "Dune")).
  repeat (apply List.Forall_cons; [reflexivity|]). apply List.Forall_nil.
Defined.

Lemma encodeURIComponent_well_formed_upto n : ∀ d,
  (length d ≤ n)%nat → is_Some (encodeURIComponent d) → well_formed d.
Proof.
  induction n as [|n IH]; intros d Hlen [q Hq].
  { destruct d; [constructor|cbn in Hlen; lia]. }
  destruct d as [|c d]; [constructor|]. cbn in Hlen.
  cbn [encodeURIComponent] in Hq.
  destruct (unreserved c) eqn:Hu.
  { destruct (unreserved_not_surrogate c Hu).
    destruct (encodeURIComponent d) as [q'|] eqn:Hq'; [|done].
    apply wf_unit; [done..|]. apply IH; [lia|by eexists]. }
  destruct (is_trail c) eqn:Ht; [done|].
  destruct (is_lead c) eqn:Hl.
  - destruct d as [|c2 d]; [done|].
    destruct (is_trail c2) eqn:Ht2; [|done]. cbn in Hlen.
    destruct (encodeURIComponent d) as [q'|] eqn:Hq'; [|done].
    apply wf_pair; [done..|]. apply IH; [lia|by eexists].
  - destruct (encodeURIComponent d) as [q'|] eqn:Hq'; [|done].
    apply wf_unit; [done..|]. apply IH; [lia|by eexists].
Qed.

(** X20: [encodeURIComponent] throws exactly on the strings that hold an
    unpaired surrogate: a trail surrogate that no lead surrogate
    precedes, or a lead surrogate that no trail surrogate follows. *)
Theorem encodeURIComponent_throws d :
  encodeURIComponent d = None ↔ ¬ well_formed d.
Proof.
  assert (is_Some (encodeURIComponent d) ↔ well_formed d) as H;
    [|by rewrite eq_None_not_Some, H].
  split; [by apply (encodeURIComponent_well_formed_upto (length d))|].
  induction 1 as [|c s Hl Ht _ IH|c c' s Hl Ht _ IH].
  - by eexists.
  - destruct IH as [q Hq]. cbn [encodeURIComponent]. rewrite Hq, Ht, Hl.
    destruct (unreserved c); by eexists.
  - destruct IH as [q Hq]. cbn [encodeURIComponent]. rewrite Hq, Hl, Ht.
    assert (is_trail c = false) as ->.
    { unfold is_lead, is_trail in *.
      rewrite andb_true_iff, !N.leb_le in Hl.
      rewrite andb_false_iff, !N.leb_gt. lia. }
    destruct (unreserved c) eqn:Hu; [|by eexists].
    destruct (unreserved_not_surrogate c Hu). congruence.
Qed.

Lemma encodeURIComponent_throws_witness :
  encodeURIComponent [55357%N] = None ∧ ¬ well_formed [55357%N].
Proof.
  split; [reflexivity|]. apply encodeURIComponent_throws. reflexivity.
Defined.

(** *** Distinct queries have distinct encodings *)

Lemma hex_digit_inj d d' :
  (d < 16)%N → (d' < 16)%N → hex_digit d = hex_digit d' → d = d'.
Proof.
  intros Hd Hd' H. apply (f_equal Ascii.N_of_ascii) in H. unfold hex_digit in H.
  rewrite !Ascii.N_ascii_embedding in H
    by (destruct (N.ltb_spec d 10), (N.ltb_spec d' 10); lia).
  destruct (N.ltb_spec d 10), (N.ltb_spec d' 10); lia.
Qed.

Lemma percent_inj o o' r r' :
  (o < 256)%N → (o' < 256)%N → percent o r = percent o' r' → o = o' ∧ r = r'.
Proof.
  intros Ho Ho' H. unfold percent in H. injection H as H1 H2 Hr.
  apply hex_digit_inj in H1; [|lia..]. apply hex_digit_inj in H2; [|lia..].
  split; [lia|done].
Qed.

Lemma escape_inj cp cp' r r' :
  (cp < 1114112)%N → (cp' < 1114112)%N →
  escape cp r = escape cp' r' → cp = cp' ∧ r = r'.
Proof.
  intros Hcp Hcp'. unfold escape, utf8.
  destruct (N.ltb_spec cp 128); [|destruct (N.ltb_spec cp 2048);
    [|destruct (N.ltb_spec cp 65536)]];
  (destruct (N.ltb_spec cp' 128); [|destruct (N.ltb_spec cp' 2048);
    [|destruct (N.ltb_spec cp' 65536)]]);
  cbn [foldr]; intros Heq;
  repeat match goal with
    | E : percent _ _ = percent _ _ |- _ =>
        apply percent_inj in E as [? ?]; [|lia..]
    end;
  first [exfalso; lia | split; [lia|congruence]].
Qed.

Lemma escape_head cp r : ∃ s, escape cp r = String (Ascii.ascii_of_N 37) s.
Proof.
  unfold escape, utf8.
  destruct (cp <? 128)%N; [|destruct (cp <? 2048)%N; [|destruct (cp <? 65536)%N]];
    cbn [foldr]; unfold percent at 1; by eexists.
Qed.

(** The first step of [encodeURIComponent] on a string that is not empty:
    an unreserved unit kept, a unit escaped, or a surrogate pair escaped
    as one code point. *)
Lemma encodeURIComponent_cons c d q :
  encodeURIComponent (c :: d) = Some q →
  (unreserved c = true
   ∧ ∃ q', encodeURIComponent d = Some q' ∧ q = String (Ascii.ascii_of_N c) q')
  ∨ (unreserved c = false ∧ is_lead c = false ∧ is_trail c = false
     ∧ ∃ q', encodeURIComponent d = Some q' ∧ q = escape c q')
  ∨ (is_lead c = true
     ∧ ∃ c2 d' q', d = c2 :: d' ∧ is_trail c2 = true
         ∧ encodeURIComponent d' = Some q'
         ∧ q = escape ((c - 55296) * 1024 + (c2 - 56320) + 65536)%N q').
Proof.
  cbn [encodeURIComponent]. intros Hq.
  destruct (unreserved c) eqn:Hu.
  { left. split; [done|].
    destruct (encodeURIComponent d) as [q'|]; [|done].
    injection Hq as <-. by eexists. }
  destruct (is_trail c) eqn:Ht; [done|].
  destruct (is_lead c) eqn:Hl.
  - right. right. split; [done|]. destruct d as [|c2 d']; [done|].
    destruct (is_trail c2) eqn:Ht2; [|done].
    destruct (encodeURIComponent d') as [q'|] eqn:Hq'; [|done].
    injection Hq as <-. exists c2, d', q'. auto.
  - right. left. do 3 (split; [done|]).
    destruct (encodeURIComponent d) as [q'|]; [|done].
    injection Hq as <-. by eexists.
Qed.

Lemma kept_not_percent c q s :
  unreserved c = true →
  String (Ascii.ascii_of_N c) q ≠ String (Ascii.ascii_of_N 37) s.
Proof.
  intros Hu E. injection E as E _. apply (f_equal Ascii.N_of_ascii) in E.
  rewrite Ascii.N_ascii_embedding in E by (apply unreserved_bound in Hu; lia).
  apply unreserved_bound in Hu. vm_compute (Ascii.N_of_ascii _) in E. lia.
Qed.

Lemma encodeURIComponent_empty d : encodeURIComponent d = Some "" → d = [].
Proof.
  destruct d as [|c d]; [done|]. intros Hq.
  apply encodeURIComponent_cons in Hq
    as [(_ & ? & _ & ?)|[(_ & _ & _ & q' & _ & H)|(_ & c2 & ? & q' & _ & _ & _ & H)]];
    [done|..].
  - by destruct (escape_head c q') as [s Hs]; rewrite Hs in H.
  - by destruct (escape_head ((c - 55296) * 1024 + (c2 - 56320) + 65536)%N q')
      as [s Hs]; rewrite Hs in H.
Qed.

Lemma encodeURIComponent_inj_upto n : ∀ d d' q,
  (length d ≤ n)%nat → code_units d → code_units d' →
  encodeURIComponent d = Some q → encodeURIComponent d' = Some q → d = d'.
Proof.
  induction n as [|n IH]; intros d d' q Hlen Hd Hd' Hq Hq'.
  { destruct d; [|cbn in Hlen; lia]. injection Hq as <-.
    symmetry. by apply encodeURIComponent_empty. }
  destruct d as [|c d].
  { injection Hq as <-. symmetry. by apply encodeURIComponent_empty. }
  destruct d' as [|c' d'].
  { injection Hq' as <-. by apply encodeURIComponent_empty. }
  cbn in Hlen.
  inversion_clear Hd as [|? ? Hc Hdd]. inversion_clear Hd' as [|? ? Hc' Hdd'].
  apply encodeURIComponent_cons in Hq
    as [(Hu & q1 & Hq1 & ->)
       |[(Hu & Hl & Ht & q1 & Hq1 & ->)
        |(Hl & c2 & d2 & q1 & -> & Ht2 & Hq1 & ->)]];
  apply encodeURIComponent_cons in Hq'
    as [(Hu' & q1' & Hq1' & E)
       |[(Hu' & Hl' & Ht' & q1' & Hq1' & E)
        |(Hl' & c2' & d2' & q1' & -> & Ht2' & Hq1' & E)]].
  - (* kept, kept *)
    injection E as E1 E2. subst q1'.
    apply (f_equal Ascii.N_of_ascii) in E1.
    rewrite !Ascii.N_ascii_embedding in E1
      by (apply unreserved_bound in Hu, Hu'; lia).
    subst c'. f_equal. apply (IH d d' q1); [lia|done..].
  - (* kept, escaped *)
    destruct (escape_head c' q1') as [s Hs]. rewrite Hs in E.
    destruct (kept_not_percent _ _ _ Hu E).
  - (* kept, pair *)
    destruct (escape_head ((c' - 55296) * 1024 + (c2' - 56320) + 65536)%N q1')
      as [s Hs]. rewrite Hs in E. destruct (kept_not_percent _ _ _ Hu E).
  - (* escaped, kept *)
    destruct (escape_head c q1) as [s Hs]. rewrite Hs in E.
    destruct (kept_not_percent _ _ _ Hu' (eq_sym E)).
  - (* escaped, escaped *)
    apply escape_inj in E as [-> ->]; [|lia..].
    f_equal. apply (IH d d' q1'); [lia|done..].
  - (* escaped, pair *)
    inversion_clear Hdd' as [|? ? Hc2' Hdd2'].
    unfold is_lead, is_trail in Hl', Ht2'.
    rewrite andb_true_iff, !N.leb_le in Hl', Ht2'.
    apply escape_inj in E as [E _]; lia.
  - (* pair, kept *)
    destruct (escape_head ((c - 55296) * 1024 + (c2 - 56320) + 65536)%N q1)
      as [s Hs]. rewrite Hs in E. destruct (kept_not_percent _ _ _ Hu' (eq_sym E)).
  - (* pair, escaped *)
    inversion_clear Hdd as [|? ? Hc2 Hdd2].
    unfold is_lead, is_trail in Hl, Ht2.
    rewrite andb_true_iff, !N.leb_le in Hl, Ht2.
    apply escape_inj in E as [E _]; lia.
  - (* pair, pair *)
    inversion_clear Hdd as [|? ? Hc2 Hdd2]. inversion_clear Hdd' as [|? ? Hc2' Hdd2'].
    unfold is_lead, is_trail in Hl, Ht2, Hl', Ht2'.
    rewrite andb_true_iff, !N.leb_le in Hl, Ht2, Hl', Ht2'.
    apply escape_inj in E as [E ->]; [|lia..].
    assert (c = c' ∧ c2 = c2') as [-> ->] by lia.
    do 2 f_equal. cbn in Hlen. apply (IH d2 d2' q1'); [lia|done..].
Qed.

(** X21: Two queries that are sent with the same [title] parameter are the
    same query: the encoding loses nothing. *)
Theorem encodeURIComponent_inj d d' q :
  code_units d → code_units d' →
  encodeURIComponent d = Some q → encodeURIComponent d' = Some q → d = d'.
Proof. intros Hd. by apply (encodeURIComponent_inj_upto (length d)). Qed.

Lemma encodeURIComponent_inj_witness :
  of_string "Dune II" = of_string "Dune II".
Proof.
  apply (encodeURIComponent_inj _ _ "Dune%20II").
  - unfold code_units. repeat (apply List.Forall_cons; [reflexivity|]).
    apply List.Forall_nil.
  - unfold code_units. repeat (apply List.Forall_cons; [reflexivity|]).
    apply List.Forall_nil.
  - reflexivity.
  - reflexivity.
Defined.


(** ** The history of requests *)

Lemma new_controller_length d p : (length (new_controller d p) ≤ 1)%nat.
Proof. unfold new_controller. destruct (falsy d); cbn; lia. Qed.

Lemma commit_urls st :
  ∃ new, map url (controllers (commit st)) = map url (controllers st) ++ new
         ∧ (length new ≤ 1)%nat.
Proof.
  destruct (changed (fetch_deps st) (debouncedQuery st, page st)) eqn:Hf.
  - destruct (commit_refetch st Hf) as (-> & _).
    exists (map url (new_controller (debouncedQuery st) (page st))).
    rewrite map_app, url_supersede, length_map.
    split; [done|apply new_controller_length].
  - destruct (commit_no_fetch st Hf) as (-> & _).
    exists []. rewrite app_nil_r. split; [done|cbn; lia].
Qed.

Lemma rerender_urls st :
  ∃ new, map url (controllers (rerender st)) = map url (controllers st) ++ new
         ∧ (length new ≤ 2)%nat.
Proof.
  unfold rerender, flush.
  destruct (stable st); [exists []; rewrite app_nil_r; split; [done|cbn; lia]|].
  destruct (commit_urls st) as (new1 & H1 & L1).
  destruct (stable (commit st)); [exists new1; split; [done|lia]|].
  destruct (commit_urls (commit st)) as (new2 & H2 & L2).
  assert (map url (controllers (commit (commit st)))
          = map url (controllers st) ++ (new1 ++ new2)) as H
    by (by rewrite H2, H1, app_assoc).
  destruct (stable (commit (commit st))); exists (new1 ++ new2);
    (split; [done|rewrite length_app; lia]).
Qed.

(** X22: A request that was made stays in the history with its URL: an event
    only adds to the history, and at most two controllers between two
    states of the component. *)
Theorem requests_only_added st e :
  ∃ new, map url (controllers (step st e)) = map url (controllers st) ++ new
         ∧ (reachable st → (length new ≤ 2)%nat).
Proof.
  assert (∀ s, (∃ new, map url (controllers (rerender s))
                       = map url (controllers s) ++ new
                       ∧ (reachable st → (length new ≤ 2)%nat))) as Hup.
  { intros s. destruct (rerender_urls s) as (new & Hnew & Hlen).
    exists new. by split. }
  assert (∃ new, map url (controllers st) = map url (controllers st) ++ new
                 ∧ (reachable st → (length new ≤ 2)%nat)) as Hsame
    by (exists []; rewrite app_nil_r; split; [done|cbn; lia]).
  destruct e as [value| | | |ms|c o]; cbn [step].
  - apply (Hup (update (setQuery value) st)).
  - apply (Hup (update (setQuery []) st)).
  - destruct (prev_disabled st); [done|apply (Hup (update onPrev st))].
  - destruct (next_disabled st); [done|apply (Hup (update onNext st))].
  - change (controllers (at_time ?n ?s)) with (controllers s).
    assert (∃ new, map url (controllers
                              (run_timers (length (timeouts st)) (now st + ms) st))
                   = map url (controllers st) ++ new) as (new & Hnew).
    { apply (run_timers_preserves
               (λ s, ∃ new, map url (controllers s)
                            = map url (controllers st) ++ new));
        [|exists []; by rewrite app_nil_r].
      intros id t s (new & Hnew).
      destruct (rerender_urls (fire id t s)) as (new' & Hnew' & _).
      exists (new ++ new'). rewrite Hnew'. cbn [controllers fire].
      by rewrite Hnew, app_assoc. }
    exists new. split; [done|]. intros Hr.
    destruct (wait_cases st ms Hr) as [[_ Heq]|(d & s & _ & _ & Hs & Heq)];
      apply (f_equal controllers) in Heq;
      cbn [step controllers at_time] in Heq; rewrite Heq in Hnew.
    + rewrite <- (app_nil_r (map url (controllers st))) in Hnew at 1.
      apply app_inv_head in Hnew as <-. cbn. lia.
    + destruct (rerender_urls s) as (new' & Hnew' & Hlen).
      destruct Hs as (_ & _ & _ & _ & _ & Hk & _).
      rewrite Hnew', Hk in Hnew. by apply app_inv_head in Hnew as <-.
  - destruct (controllers st !! c) as [[[] [u|] []]|]; try done.
    destruct (rerender_urls (resume c o st)) as (new & Hnew & Hlen).
    exists new. split; [|done]. rewrite Hnew. cbn. by rewrite url_alter_settle.
Qed.

Lemma requests_only_added_witness :
  ∃ new, map url (controllers (step Scenario.retyped (Wait 450)))
         = map url (controllers Scenario.retyped) ++ new
         ∧ (length new ≤ 2)%nat.
Proof.
  destruct (requests_only_added Scenario.retyped (Wait 450))
    as (new & Hnew & Hlen).
  exists new. split; [exact Hnew|]. apply Hlen.
  apply reachable_run, reachable_run, reachable_run, reachable_mounted.
Defined.

(** X23: A keystroke makes no request and touches no cell but the raw query:
    requests come from the timer only. *)
Theorem keystroke_makes_no_request st value :
  reachable st →
  controllers (step st (Change value)) = controllers st
  ∧ hooks (step st (Change value)) = setQuery value st
  ∧ emitted (step st (Change value)) = emitted st.
Proof.
  intros Hr. pose proof (reachable_stable _ Hr) as Hs.
  destruct (decide (value = query st)) as [->|Hv].
  - rewrite change_same by done. by destruct st as [[]].
  - by destruct (keystroke st value Hr Hv) as (_ & _ & -> & -> & ->).
Qed.

Lemma keystroke_makes_no_request_witness :
  controllers (step Sample.first_page (Change Sample.emma))
  = controllers Sample.first_page.
Proof.
  apply (keystroke_makes_no_request Sample.first_page Sample.emma).
  apply reachable_run, reachable_mounted.
Defined.

(** ** A query that cannot be encoded *)

(** X24: When the debounced query takes a value that holds an unpaired
    surrogate, no request is made for it: the URIError that
    [encodeURIComponent] throws is caught, its message becomes the error,
    [loading] is cleared, the request that was in flight is aborted, and
    [results] and [numFound] keep their values. *)
Theorem malformed_query_fails st due value ms :
  reachable st → timer st = Some (due, value) → (due ≤ now st + ms)%nat →
  value ≠ debouncedQuery st → encodeURIComponent value = None →
  let st' := step st (Wait ms) in
  debouncedQuery st' = value
  ∧ error st' = Some "URI malformed" ∧ loading st' = false ∧ idle st'
  ∧ results st' = results st ∧ numFound st' = numFound st.
Proof.
  intros Hr Ht Hdue Hv Hq st'. subst st'.
  assert (falsy value = false) as Hfalsy by (by destruct value).
  destruct (wait_fire st due value ms Hr Ht Hdue) as (_ & s & Hfired & ->).
  pose proof (fired_single st due value s (reachable_single _ Hr) Hfired) as HJ.
  assert (∀ n s, idle (at_time n s) ↔ idle s) as Hat by done.
  rewrite Hat. change (hooks (at_time ?n ?s)) with (hooks s).
  destruct (new_query st due value s Hr Hfired Hv)
    as (Hk1 & Hc1 & Hl1 & He1 & Hres1 & Hn1 & _ & Hd1 & Hone & Htwo).
  cbn zeta in *.
  assert (∀ x : cells,
            loading (fetch_effect_cells value x) = false
            ∧ error (fetch_effect_cells value x) = Some "URI malformed"
            ∧ results (fetch_effect_cells value x) = results x
            ∧ numFound (fetch_effect_cells value x) = numFound x) as Hcells.
  { intros x. unfold fetch_effect_cells. by rewrite Hfalsy, Hq. }
  assert (∀ x p, single_request x →
            idle (with_controllers
                    (controllers (supersede x) ++ new_controller value p) x))
    as Hidle.
  { intros x p Hx c [u Hu]. cbn in Hu.
    apply lookup_app_Some in Hu as [Hu|[_ Hu]].
    - apply (supersede_idle x Hx c). by exists u.
    - unfold new_controller in Hu. rewrite Hfalsy, Hq in Hu.
      by destruct (c - length (controllers (supersede x)))%nat. }
  destruct (Hcells st) as (El & Ee & Eres & En).
  rewrite El in Hl1. rewrite Ee in He1. rewrite Eres in Hres1. rewrite En in Hn1.
  assert (loading (commit s) = false) as Hl1' by (by destruct (supersedes st)).
  assert (idle (commit s)) as Hi1.
  { intros c [u Hu]. apply (Hidle st (page st) (reachable_single _ Hr) c).
    exists u. cbn. by rewrite <- Hk1. }
  destruct (decide (page st = 1)) as [Hp|Hp].
  - by rewrite (Hone Hp).
  - destruct (Htwo Hp) as (-> & Hk2 & _ & Hl2 & He2 & Hres2 & Hn2 & _ & Hd2).
    destruct (Hcells (commit s)) as (El2 & Ee2 & Eres2 & En2).
    rewrite El2 in Hl2. rewrite Ee2 in He2. rewrite Eres2 in Hres2.
    rewrite En2 in Hn2.
    split; [done|]. split; [done|].
    split; [by destruct (supersedes (commit s))|].
    split; [|by rewrite Hres2, Hn2].
    intros c [u Hu]. apply (Hidle (commit s) 1 (commit_single s HJ) c).
    exists u. cbn. by rewrite <- Hk2.
Qed.

Lemma malformed_query_fails_witness :
  let st := run Sample.second_page [Change [55357%N]] in
  error (step st (Wait 450)) = Some "URI malformed"
  ∧ results (step st (Wait 450)) = results st.
Proof.
  intros st.
  destruct (malformed_query_fails st 900 [55357%N] 450)
    as (_ & He & _ & _ & Hres & _).
  - apply reachable_run, reachable_run, reachable_run, reachable_mounted.
  - vm_compute. reflexivity.
  - vm_compute. lia.
  - vm_compute. discriminate.
  - reflexivity.
  - split; [exact He|exact Hres].
Defined.
